(** * Shallow embedding of [src/php/preg.js] (PHP-compatible preg_* functions).

    Strings are JavaScript strings seen as sequences of code units; we use
    the Standard Library's [string] (code units below 256).  The native
    [RegExp] constructor is an external collaborator: it is abstracted as a
    class [NativeRegExp] that either throws (with a message) or returns a
    sticky matcher, i.e. the ECMAScript "matcher" run at a given position.
    The iteration protocols of [RegExp.prototype.exec], [String.prototype.replace]
    and [String.prototype.split] are written out on top of it. *)

From Stdlib Require Import String Ascii List ZArith Bool Arith Lia.
Import ListNotations.
Open Scope string_scope.

(** ** Generic string helpers (JS built-ins) *)

Definition char_in (c : ascii) (set : string) : bool :=
  existsb (fun d => Ascii.eqb c d) (list_ascii_of_string set).

(** [s.slice(a, b)] for natural bounds, i.e. [substring a (b - a) s]. *)
Definition slice (s : string) (a b : nat) : string := substring a (b - a) s.

(** [s.startsWith(p, q)] *)
Definition starts_at (p s : string) (q : nat) : bool :=
  prefix p (substring q (String.length s - q) s).

(** [hay.indexOf(needle, from)] (from already clamped to a natural). *)
Fixpoint index_of_aux (needle hay : string) (k n : nat) : option nat :=
  if starts_at needle hay k then Some k
  else match n with 0 => None | S n' => index_of_aux needle hay (S k) n' end.

Definition index_of (hay needle : string) (from : nat) : Z :=
  let f := Nat.min from (String.length hay) in
  if Nat.leb (String.length needle + f) (String.length hay) then
    match index_of_aux needle hay f (String.length hay - String.length needle - f) with
    | Some k => Z.of_nat k
    | None => (-1)%Z
    end
  else (-1)%Z.

(** JS [/\s/] restricted to code units below 256: TAB, LF, VT, FF, CR, SPACE, NBSP. *)
Definition is_js_space (c : ascii) : bool :=
  let n := nat_of_ascii c in
  (Nat.eqb n 9 || Nat.eqb n 10 || Nat.eqb n 11 || Nat.eqb n 12 || Nat.eqb n 13
   || Nat.eqb n 32 || Nat.eqb n 160)%bool.

Definition bslash : ascii := "\".
Definition nl : ascii := "010".

(** ** stripExtended (preg.js lines 41-77)

    The for-loop over [i] with the two booleans [inClass] and [escaped].  The
    inner [while] on [#] advances [i] to the next newline (or the end), and the
    [continue] of the for-loop then steps over that newline. *)
Fixpoint strip_loop (inClass escaped : bool) (s : string) : string :=
  match s with
  | EmptyString => EmptyString
  | String ch rest =>
      if escaped then String ch (strip_loop inClass false rest)
      else if Ascii.eqb ch bslash then String ch (strip_loop inClass true rest)
      else if Ascii.eqb ch "[" && negb inClass then String ch (strip_loop true false rest)
      else if Ascii.eqb ch "]" && inClass then String ch (strip_loop false false rest)
      else if negb inClass && Ascii.eqb ch "#" then
        (fix skip (t : string) : string :=
           match t with
           | EmptyString => EmptyString
           | String c t' => if Ascii.eqb c nl then strip_loop inClass escaped t'
                            else skip t'
           end) rest
      else if negb inClass && is_js_space ch then strip_loop inClass escaped rest
      else String ch (strip_loop inClass escaped rest)
  end.

Definition stripExtended (pattern : string) : string := strip_loop false false pattern.

(** ** parsePattern (preg.js lines 79-110) *)

(** [s.lastIndexOf(c)]; [None] stands for [-1]. *)
Fixpoint last_index_of (c : ascii) (s : string) : option nat :=
  match s with
  | EmptyString => None
  | String d rest =>
      match last_index_of c rest with
      | Some k => Some (S k)
      | None => if Ascii.eqb c d then Some 0 else None
      end
  end.

(** [[...new Set(flags.split(""))].join("")]: keep the first occurrence of each character. *)
Fixpoint dedupe_aux (seen : list ascii) (s : string) : string :=
  match s with
  | EmptyString => EmptyString
  | String c rest =>
      if existsb (Ascii.eqb c) seen then dedupe_aux seen rest
      else String c (dedupe_aux (c :: seen) rest)
  end.

Definition dedupe (s : string) : string := dedupe_aux [] s.

(** Result of the modifier loop: the flags built so far and the [extended] marker,
    or the message of the [Error] thrown. *)
Fixpoint parse_mods (mods : string) (flags : string) (extended : bool)
  : string + (string * bool) :=
  match mods with
  | EmptyString => inr (flags, extended)
  | String m rest =>
      if Ascii.eqb m "i" then parse_mods rest (flags ++ "i") extended
      else if Ascii.eqb m "m" then parse_mods rest (flags ++ "m") extended
      else if Ascii.eqb m "s" then parse_mods rest (flags ++ "s") extended
      else if Ascii.eqb m "u" then parse_mods rest (flags ++ "u") extended
      else if Ascii.eqb m "x" then parse_mods rest flags true
      else if char_in m "AUDSJ" then parse_mods rest flags extended
      else if Ascii.eqb m "e" then inl "Modifier 'e' is not supported for security reasons"
      else inl ("Unsupported modifier '" ++ String m EmptyString ++ "'")
  end.

Record parsed := { p_source : string; p_flags : string; p_modifiers : string }.

(** [inl msg] is the [Error] thrown by [parsePattern]. *)
Definition parsePattern (pat : string) : string + parsed :=
  if Nat.ltb (String.length pat) 2 then inl "Empty regex"
  else
    match pat with
    | EmptyString => inl "Empty regex"
    | String delim _ =>
        match last_index_of delim pat with
        | None | Some 0 => inl "Invalid delimiter"
        | Some last =>
            let body := slice pat 1 last in
            let mods := substring (S last) (String.length pat - S last) pat in
            match parse_mods mods "g" false with
            | inl msg => inl msg
            | inr (flags, extended) =>
                let src := if extended then stripExtended body else body in
                inr {| p_source := src; p_flags := dedupe flags; p_modifiers := mods |}
            end
        end
    end.

(** ** The native regular-expression engine

    A match as [RegExp.prototype.exec] reports it: where the match ends, the
    numbered captures 1..n ([None] is [undefined]) and [match.groups]
    ([None] when the pattern has no named group). *)
Record MatchRes := { m_end : nat; m_caps : list (option string);
                     m_groups : option (list (string * option string)) }.

(** The ECMAScript matcher: try to match at exactly position [q] of [s]. *)
Definition Matcher := string -> nat -> option MatchRes.

(** [new RegExp(source, flags)]: throws with a message, or yields a matcher. *)
Class NativeRegExp := native_RegExp : string -> string -> string + Matcher.

(** What every ECMAScript matcher satisfies: a match at [q] ends between [q]
    and the end of the string. *)
Definition matcher_wf (m : Matcher) : Prop :=
  forall s q r, m s q = Some r -> q <= m_end r <= String.length s.

(** ** Error state (preg.js lines 33-39) *)

Record St := { last_error : Z; last_error_msg : string }.

Definition PREG_NO_ERROR : Z := 0.
Definition PREG_INTERNAL_ERROR : Z := 1.
Definition PREG_PATTERN_ORDER : Z := 1.
Definition PREG_SET_ORDER : Z := 2.
Definition PREG_OFFSET_CAPTURE : Z := 256.
Definition PREG_UNMATCHED_AS_NULL : Z := 512.

Definition init_state : St := {| last_error := PREG_NO_ERROR; last_error_msg := "PREG_NO_ERROR" |}.

Definition setPregError (code : Z) (msg : string) (_ : St) : St :=
  {| last_error := code; last_error_msg := msg |}.

(** [flags.replace("g", "")]: drop the first ["g"]. *)
Fixpoint drop_first_g (s : string) : string :=
  match s with
  | EmptyString => EmptyString
  | String c rest => if Ascii.eqb c "g" then rest else String c (drop_first_g rest)
  end.

Section Compile.
Context `{RE : NativeRegExp}.

(** [compile] (preg.js lines 112-122): [None] is the [null] sentinel. *)
Definition compile (pat : string) (single : bool) (st : St) : option Matcher * St :=
  match parsePattern pat with
  | inl msg => (None, setPregError PREG_INTERNAL_ERROR msg st)
  | inr p =>
      let f := if single then drop_first_g (p_flags p) else p_flags p in
      let st1 := setPregError PREG_NO_ERROR "PREG_NO_ERROR" st in
      match native_RegExp (p_source p) f with
      | inl msg => (None, setPregError PREG_INTERNAL_ERROR msg st1)
      | inr m => (Some m, st1)
      end
  end.

(** [preg_last_error] and [preg_last_error_msg] (lines 167-180) as state readers. *)
Definition preg_last_error (st : St) : Z * St := (last_error st, st).
Definition preg_last_error_msg (st : St) : string * St := (last_error_msg st, st).

End Compile.

(** ** ECMAScript iteration protocols over a matcher *)

Section JSRegExp.
Variable m : Matcher.

(** The search loop of RegExpBuiltinExec: try [q], [q+1], ..., [q+n]. *)
Fixpoint search (s : string) (q n : nat) : option (nat * MatchRes) :=
  match m s q with
  | Some r => Some (q, r)
  | None => match n with 0 => None | S n' => search s (S q) n' end
  end.

(** [re.exec(s)] with [re.lastIndex = li]: fails when [li] is past the end;
    the result is the match position ([m.index]) and the match. *)
Definition exec_at (s : string) (li : nat) : option (nat * MatchRes) :=
  if Nat.ltb (String.length s) li then None else search s li (String.length s - li).

(** The global loop [while ((m = re.exec(s)) !== null) { ...; if (m[0] === "") re.lastIndex++; }]
    (preg.js lines 248-254); [exec] leaves [lastIndex] at the end of the match,
    and [m[0] === ""] holds when the match ends where it starts.  The same loop
    collects the matches of [String.prototype.replace] with a global regex
    (RegExp.prototype[@@replace]).  [lastIndex] grows at every round, so
    [length s + 2] rounds always reach the final [null]. *)
Fixpoint exec_all_fuel (fuel : nat) (s : string) (li : nat) : list (nat * MatchRes) :=
  match fuel with
  | 0 => []
  | S f =>
      match exec_at s li with
      | None => []
      | Some (q, r) =>
          (q, r) :: exec_all_fuel f s (if Nat.eqb (m_end r) q then S (m_end r) else m_end r)
      end
  end.

Definition exec_all (s : string) : list (nat * MatchRes) :=
  exec_all_fuel (S (S (String.length s))) s 0.

(** The result loop of RegExp.prototype[@@replace] with a replacer function:
    the replacer is called on each match in order (it sees the matched text
    [args[0]] and may update the caller's state [A]); the text between matches
    is copied. *)
Fixpoint replace_build {A : Type} (s : string) (f : A -> string -> string * A)
    (ms : list (nat * MatchRes)) (next : nat) (acc : string) (a : A) : string * A :=
  match ms with
  | [] =>
      (if Nat.leb (String.length s) next then acc
       else acc ++ slice s next (String.length s), a)
  | (q, r) :: ms' =>
      let '(rep, a') := f a (slice s q (m_end r)) in
      if Nat.leb next q then replace_build s f ms' (m_end r) (acc ++ slice s next q ++ rep) a'
      else replace_build s f ms' next acc a'
  end.

(** [s.replace(re, f)] with [re] global. *)
Definition js_replace_global {A : Type} (s : string) (f : A -> string -> string * A) (a : A)
  : string * A :=
  replace_build s f (exec_all s) 0 "" a.

(** RegExp.prototype[@@split] with the sticky splitter (no limit argument, so
    the [2^32-1] cap on the array is never reached on a string): [p] is the
    start of the current piece, [q] the position tried.  Captures are pushed
    after each piece ([None] is [undefined]).  Each round increases
    [2 * q + (if p = q then 0 else 1)], so [2 * length s + 2] rounds suffice. *)
Fixpoint split_loop (fuel : nat) (s : string) (p q : nat) : list (option string) :=
  match fuel with
  | 0 => [Some (slice s p (String.length s))]
  | S f =>
      if Nat.ltb q (String.length s) then
        match m s q with
        | None => split_loop f s p (S q)
        | Some r =>
            let e := Nat.min (m_end r) (String.length s) in
            if Nat.eqb e p then split_loop f s p (S q)
            else Some (slice s p q) :: m_caps r ++ split_loop f s e e
        end
      else [Some (slice s p (String.length s))]
  end.

(** [s.split(re)]: on the empty string the result is [[]] if the splitter
    matches there, [[s]] otherwise. *)
Definition js_split (s : string) : list (option string) :=
  if Nat.eqb (String.length s) 0 then
    match m s 0 with Some _ => [] | None => [Some s] end
  else split_loop (S (S (2 * String.length s))) s 0 0.

End JSRegExp.

(** The regex literal [/[\\^$.*+?()[\]{}|]/g] of [preg_quote]: one metacharacter. *)
Definition quote_meta : string := "\^$.*+?()[]{}|".

Definition meta_class : Matcher := fun s q =>
  match get q s with
  | Some c => if char_in c quote_meta
              then Some {| m_end := S q; m_caps := []; m_groups := None |} else None
  | None => None
  end.

(** The matcher of a pattern that is a plain literal (no metacharacter). *)
Definition lit_matcher (lit : string) : Matcher := fun s q =>
  if Nat.leb q (String.length s) && starts_at lit s q
  then Some {| m_end := q + String.length lit; m_caps := []; m_groups := None |}
  else None.

(** ** JavaScript values: result rows, output containers *)

(** Property keys: array indices and (group) names.  A group name is an
    identifier, so it never reads as an index. *)
Inductive key := KIdx (n : nat) | KName (name : string).

Definition key_eqb (k1 k2 : key) : bool :=
  match k1, k2 with
  | KIdx a, KIdx b => Nat.eqb a b
  | KName a, KName b => String.eqb a b
  | _, _ => false
  end.

Definition is_index (k : key) : bool := match k with KIdx _ => true | KName _ => false end.

#[warnings="-register-all"]
Inductive jsval :=
| JUndef
| JNull
| JStr (s : string)
| JNum (z : Z)
| JArr (l : list jsval)
| JObj (o : list (key * jsval)).

(** An object's own properties in [Object.keys] order. *)
Definition obj := list (key * jsval).

Fixpoint obj_get (o : obj) (k : key) : option jsval :=
  match o with
  | [] => None
  | (k', v) :: o' => if key_eqb k k' then Some v else obj_get o' k
  end.

(** [o[k] = v]: overwrite in place, or add the key last. *)
Fixpoint obj_set (o : obj) (k : key) (v : jsval) : obj :=
  match o with
  | [] => [(k, v)]
  | (k', v') :: o' => if key_eqb k k' then (k, v) :: o' else (k', v') :: obj_set o' k v
  end.

(** [Object.assign(target, src)] *)
Definition obj_assign (target src : obj) : obj :=
  fold_left (fun o kv => obj_set o (fst kv) (snd kv)) src target.

(** A caller's [matches] argument: an array or a plain object. *)
Record container := { c_is_array : bool; c_props : obj }.

(** Writing a result into [matches] (preg.js lines 217-226 and 275-283): an
    array gets [length = 0] (its index properties go, named ones stay) and
    then every key of [out]; a plain object loses all its keys first. *)
Definition write_container (c : container) (out : obj) : container :=
  if c_is_array c then
    {| c_is_array := true;
       c_props := obj_assign (filter (fun kv => negb (is_index (fst kv))) (c_props c)) out |}
  else {| c_is_array := false; c_props := obj_assign [] out |}.

Definition unmatched (unmatchedAsNull : bool) : jsval :=
  if unmatchedAsNull then JNull else JStr "".

(** ** withOffsets and withValues (preg.js lines 124-160) *)

Fixpoint caps_offsets (m0 : string) (base : Z) (i cursor : nat) (caps : list (option string))
    (u : bool) (out : obj) : obj :=
  match caps with
  | [] => out
  | None :: cs =>
      caps_offsets m0 base (S i) cursor cs u (obj_set out (KIdx i) (JArr [unmatched u; JNum (-1)]))
  | Some g :: cs =>
      let pos := index_of m0 g cursor in
      let off := if Z.leb 0 pos then (base + pos)%Z else (-1)%Z in
      let cursor' := if Z.leb 0 pos then Z.to_nat pos + String.length g else cursor in
      caps_offsets m0 base (S i) cursor' cs u (obj_set out (KIdx i) (JArr [JStr g; JNum off]))
  end.

Definition groups_offsets (m0 : string) (base : Z) (gs : list (string * option string))
    (u : bool) (out : obj) : obj :=
  fold_left (fun o kv =>
    match snd kv with
    | None => obj_set o (KName (fst kv)) (JArr [unmatched u; JNum (-1)])
    | Some v =>
        let pos := index_of m0 v 0 in
        obj_set o (KName (fst kv)) (JArr [JStr v; JNum (if Z.leb 0 pos then (base + pos)%Z else (-1)%Z)])
    end) gs out.

(** The match found at [q] in [s]; [m[0]] is [slice s q (m_end r)]. *)
Definition withOffsets (s : string) (q : nat) (r : MatchRes) (baseIndex : Z) (u : bool) : obj :=
  let m0 := slice s q (m_end r) in
  let out := obj_set [] (KIdx 0) (JArr [JStr m0; JNum baseIndex]) in
  let out := caps_offsets m0 baseIndex 1 0 (m_caps r) u out in
  match m_groups r with
  | Some gs => groups_offsets m0 baseIndex gs u out
  | None => out
  end.

Fixpoint caps_values (i : nat) (caps : list (option string)) (u : bool) (out : obj) : obj :=
  match caps with
  | [] => out
  | c :: cs =>
      caps_values (S i) cs u
        (obj_set out (KIdx i) (match c with Some g => JStr g | None => unmatched u end))
  end.

Definition withValues (s : string) (q : nat) (r : MatchRes) (u : bool) : obj :=
  let out := obj_set [] (KIdx 0) (JStr (slice s q (m_end r))) in
  let out := caps_values 1 (m_caps r) u out in
  match m_groups r with
  | Some gs =>
      fold_left (fun o kv =>
        obj_set o (KName (fst kv)) (match snd kv with Some v => JStr v | None => unmatched u end))
        gs out
  | None => out
  end.

(** The row built for one match, as chosen by the [flags] bits. *)
Definition build_row (flags : Z) (s : string) (q : nat) (r : MatchRes) (offset : Z) : obj :=
  let baseIndex := (Z.of_nat q + offset)%Z in
  let u := Z.eqb (Z.land flags PREG_UNMATCHED_AS_NULL) PREG_UNMATCHED_AS_NULL in
  if negb (Z.eqb (Z.land flags PREG_OFFSET_CAPTURE) 0) then withOffsets s q r baseIndex u
  else withValues s q r u.

(** [subject.slice(offset)] *)
Definition js_slice_from (s : string) (offset : Z) : string :=
  let len := Z.of_nat (String.length s) in
  let from := if Z.ltb offset 0 then Z.max (len + offset) 0 else Z.min offset len in
  slice s (Z.to_nat from) (String.length s).

(** [offset ? subject.slice(offset) : subject] *)
Definition subject_from (s : string) (offset : Z) : string :=
  if Z.eqb offset 0 then s else js_slice_from s offset.

(** Return values [false] and integers. *)
Inductive pres := PFalse | PInt (z : Z).

(** ** The preg_* functions (state passing for the error state) *)

Section Preg.
Context `{RE : NativeRegExp}.

(** preg_quote (preg.js lines 186-192).  The first replace uses the regex
    literal [meta_class] with the template ["\\$&"] (a backslash, then the
    match); the second one compiles [del] with [new RegExp(del, "g")], which
    throws ([None]) if the engine rejects it. *)
Definition escape_meta (s : string) : string :=
  fst (js_replace_global meta_class s (fun u mt => (String bslash mt, u)) tt).

Definition preg_quote (str : string) (delimiter : option string) : option string :=
  let del := match delimiter with
             | Some d => if String.eqb d "" then "" else escape_meta d
             | None => ""
             end in
  match native_RegExp del "g" with
  | inl _ => None
  | inr mdel =>
      Some (fst (js_replace_global mdel (escape_meta str) (fun u mt => (String bslash mt, u)) tt))
  end.

(** preg_match (lines 198-228): non-global, so [exec] starts at index 0. *)
Definition preg_match (pattern subject : string) (matches : option container)
    (flags offset : Z) (st : St) : pres * option container * St :=
  let '(re, st1) := compile pattern true st in
  match re with
  | None => (PFalse, matches, st1)
  | Some m =>
      let subj := subject_from subject offset in
      match exec_at m subj 0 with
      | None => (PInt 0, matches, st1)
      | Some (q, r) =>
          let out := build_row flags subj q r offset in
          (PInt 1, option_map (fun c => write_container c out) matches, st1)
      end
  end.

(** [out[k] ??= []; out[k].push(row[k])] for each key of one row. *)
Definition push_row (out : obj) (row : obj) : obj :=
  fold_left (fun o kv =>
    obj_set o (fst kv)
      (match obj_get o (fst kv) with
       | Some (JArr l) => JArr (l ++ [snd kv])
       | _ => JArr [snd kv]
       end)) row out.

Definition row0 (row : obj) : jsval :=
  match obj_get row (KIdx 0) with Some v => v | None => JUndef end.

(** PREG_PATTERN_ORDER output (lines 263-272).  Rows of one regex share their
    key set, so insertion order is [Object.keys] order here. *)
Definition pattern_order (all : list obj) : obj :=
  let out := fold_left push_row all [] in
  match obj_get out (KIdx 0) with
  | Some _ => out
  | None => obj_set out (KIdx 0) (JArr (map row0 all))
  end.

(** PREG_SET_ORDER output: the array of rows. *)
Definition set_order (all : list obj) : obj :=
  combine (map KIdx (seq 0 (length all))) (map JObj all).

(** preg_match_all (lines 234-285). *)
Definition preg_match_all (pattern subject : string) (matches : option container)
    (flags offset : Z) (st : St) : pres * option container * St :=
  let '(re, st1) := compile pattern false st in
  match re with
  | None => (PFalse, matches, st1)
  | Some m =>
      let subj := subject_from subject offset in
      let all := map (fun qr => build_row flags subj (fst qr) (snd qr) offset) (exec_all m subj) in
      let count := length all in
      let out := if Z.eqb (Z.land flags PREG_SET_ORDER) PREG_SET_ORDER
                 then set_order all else pattern_order all in
      (PInt (Z.of_nat count), option_map (fun c => write_container c out) matches, st1)
  end.

(** One pattern applied to one subject (lines 314-326): the replacer keeps
    [localCount]; with [limit >= 0] matches past the limit give back [args[0]]. *)
Definition replace_with_limit (m : Matcher) (r : string) (limit : Z) (s : string) : string * Z :=
  if Z.leb 0 limit then
    js_replace_global m s
      (fun localCount matched =>
         if Z.leb limit localCount then (matched, localCount) else (r, (localCount + 1)%Z)) 0%Z
  else js_replace_global m s (fun localCount _ => (r, (localCount + 1)%Z)) 0%Z.

(** [replacements[i] ?? replacements[0] ?? ""] *)
Definition replacement_for (reps : list string) (i : nat) : string :=
  match nth_error reps i with
  | Some r => r
  | None => match nth_error reps 0 with Some r => r | None => "" end
  end.

(** The loop of [replaceOne] from pattern index [i]; [total] is the shared
    counter of [preg_replace]; [None] is the [return false]. *)
Fixpoint replace_pats (pats : list string) (i : nat) (reps : list string) (limit : Z)
    (out : string) (total : Z) (st : St) : option string * Z * St :=
  match pats with
  | [] => (Some out, total, st)
  | p :: ps =>
      let r := replacement_for reps i in
      let '(re, st1) := compile p false st in
      match re with
      | None => (None, total, st1)
      | Some m =>
          let '(out', localCount) := replace_with_limit m r limit out in
          replace_pats ps (S i) reps limit out' (total + localCount)%Z st1
      end
  end.

(** A string-or-array argument. *)
Inductive strs := One (s : string) | Many (l : list string).

Definition as_list (x : strs) : list string := match x with One s => [s] | Many l => l end.

(** Results: [false], a string, or an array of such. *)
#[warnings="-register-all"]
Inductive rval := RFalse | RStr (s : string) | RArr (l : list rval).

Definition rval_of (o : option string) : rval := match o with Some s => RStr s | None => RFalse end.

(** [subject.map(replaceOne)], threading the counter and the error state. *)
Fixpoint replace_subjects (pats reps : list string) (limit : Z) (ss : list string)
    (total : Z) (st : St) : list rval * Z * St :=
  match ss with
  | [] => ([], total, st)
  | s :: ss' =>
      let '(res, total1, st1) := replace_pats pats 0 reps limit s total st in
      let '(rest, total2, st2) := replace_subjects pats reps limit ss' total1 st1 in
      (rval_of res :: rest, total2, st2)
  end.

(** preg_replace (lines 291-335).  The second component is [total], the value
    written to [countObj.count] when a counter object is passed. *)
Definition preg_replace (pattern replacement subject : strs) (limit : Z) (st : St)
  : rval * Z * St :=
  let patterns := as_list pattern in
  let replacements := as_list replacement in
  match subject with
  | One s =>
      let '(res, total, st1) := replace_pats patterns 0 replacements limit s 0%Z st in
      (rval_of res, total, st1)
  | Many ss =>
      let '(res, total, st1) := replace_subjects patterns replacements limit ss 0%Z st in
      (RArr res, total, st1)
  end.

(** Split results: [false] or an array of strings and [undefined]s. *)
Inductive sres := SFalse | SArr (l : list (option string)).

(** preg_split (lines 341-354); [flags] is not used by the code. *)
Definition preg_split (pattern subject : string) (limit flags : Z) (st : St) : sres * St :=
  let '(re, st1) := compile pattern false st in
  match re with
  | None => (SFalse, st1)
  | Some m =>
      let pieces := js_split m subject in
      if Z.ltb 0 limit then (SArr (firstn (Z.to_nat limit) pieces), st1)
      else (SArr pieces, st1)
  end.

(** preg_grep (lines 360-376): [re.test] on a non-global regex. *)
Definition preg_grep (pattern : string) (input : list string) (flags : Z) (st : St)
  : option (list string) * St :=
  let '(re, st1) := compile pattern true st in
  match re with
  | None => (None, st1)
  | Some m =>
      let invert := Z.eqb (Z.land flags 1) 1 in
      (Some (filter (fun v =>
                let ok := match exec_at m v 0 with Some _ => true | None => false end in
                (ok && negb invert) || (negb ok && invert))%bool input), st1)
  end.

End Preg.

(** ** The engine on literal patterns

    [new RegExp(src, flags)] for a source without metacharacters is the
    literal matcher, and [(lit)] adds one capture; other sources are refused
    here.  It is used to run the functions on concrete inputs. *)
Definition plain (s : string) : bool :=
  forallb (fun c => negb (char_in c quote_meta)) (list_ascii_of_string s).

Definition group_matcher (lit : string) : Matcher := fun s q =>
  match lit_matcher lit s q with
  | Some r => Some {| m_end := m_end r; m_caps := [Some lit]; m_groups := None |}
  | None => None
  end.

Definition LiteralEngine : NativeRegExp := fun src _ =>
  if plain src then inr (lit_matcher src)
  else
    let n := String.length src in
    let inner := substring 1 (n - 2) src in
    if Nat.leb 3 n && String.eqb (substring 0 1 src) "(" && String.eqb (substring (n - 1) 1 src) ")"
       && plain inner
    then inr (group_matcher inner)
    else inl "unsupported pattern".

(** ** Specification-side notions *)

(** The content of a character class as the scanner reads it: characters other
    than [\] and [], and escape pairs. *)
Inductive class_body : string -> Prop :=
| cb_nil : class_body ""
| cb_char c w : c <> bslash -> c <> "]"%char -> class_body w -> class_body (String c w)
| cb_esc c w : class_body w -> class_body (String bslash (String c w)).

Definition no_newline (s : string) : Prop := ~ In nl (list_ascii_of_string s).

(** The modifiers the parser accepts, and those it hands to the engine. *)
Definition mod_known (c : ascii) : bool := char_in c "imsuxAUDSJ".
Definition native_mod (c : ascii) : bool := char_in c "imsu".

Fixpoint filter_str (f : ascii -> bool) (s : string) : string :=
  match s with
  | EmptyString => EmptyString
  | String c rest => if f c then String c (filter_str f rest) else filter_str f rest
  end.

(** The module's exported operations as calls on the process-wide error state. *)
Inductive call :=
| CQuote (str : string) (delimiter : option string)
| CMatch (pattern subject : string) (matches : option container) (flags offset : Z)
| CMatchAll (pattern subject : string) (matches : option container) (flags offset : Z)
| CReplace (pattern replacement subject : strs) (limit : Z)
| CSplit (pattern subject : string) (limit flags : Z)
| CGrep (pattern : string) (input : list string) (flags : Z)
| CLastError
| CLastErrorMsg.

Section Calls.
Context `{RE : NativeRegExp}.

Definition run_call (c : call) (st : St) : St :=
  match c with
  | CQuote _ _ => st
  | CMatch p s m f o => snd (preg_match p s m f o st)
  | CMatchAll p s m f o => snd (preg_match_all p s m f o st)
  | CReplace p r s l => snd (preg_replace p r s l st)
  | CSplit p s l f => snd (preg_split p s l f st)
  | CGrep p i f => snd (preg_grep p i f st)
  | CLastError => snd (preg_last_error st)
  | CLastErrorMsg => snd (preg_last_error_msg st)
  end.

(** The error states a process can be in: the initial one, then any sequence of calls. *)
Inductive reachable : St -> Prop :=
| reach_init : reachable init_state
| reach_step (c : call) (st : St) : reachable st -> reachable (run_call c st).

End Calls.

(** Replacement as the specification words it: walk the occurrences [ms]
    left to right from [next]; the first [k] become [r], the others keep their
    text; the text around them is kept. *)
Fixpoint spec_pieces (s r : string) (k : nat) (ms : list (nat * MatchRes)) (next : nat) : string :=
  match ms with
  | [] => slice s next (String.length s)
  | (q, res) :: ms' =>
      slice s next q
      ++ (match k with 0 => slice s q (m_end res) | S _ => r end)
      ++ spec_pieces s r (pred k) ms' (m_end res)
  end.

(** The specification's limit: [Some n] substitutes at most [n] times, [None]
    (the [-1] of the code) substitutes all occurrences. *)
Definition substitutions (lim : option nat) (occurrences : nat) : nat :=
  match lim with Some n => Nat.min n occurrences | None => occurrences end.

Section SpecReplace.
Context `{RE : NativeRegExp}.

(** Patterns applied in order to one subject, each on the previous output,
    pairing pattern [i] with [replacement_for reps i]; besides the output, the
    number of substitutions made by each pattern.  [None] when a pattern does
    not compile. *)
Fixpoint spec_replace_pats (pats : list string) (i : nat) (reps : list string) (lim : option nat)
    (s : string) : option (string * list nat) :=
  match pats with
  | [] => Some (s, [])
  | p :: ps =>
      match fst (compile p false init_state) with
      | None => None
      | Some m =>
          let ms := exec_all m s in
          let k := substitutions lim (length ms) in
          match spec_replace_pats ps (S i) reps lim (spec_pieces s (replacement_for reps i) k ms 0) with
          | None => None
          | Some (out, counts) => Some (out, k :: counts)
          end
      end
  end.

End SpecReplace.

(** The limit argument as the specification reads it: [limit >= 0] is a bound,
    a negative one (the documented [-1]) is no bound. *)
Definition lim_of (limit : Z) : option nat :=
  if Z.leb 0 limit then Some (Z.to_nat limit) else None.

(** Occurrences listed left to right, none starting before [next] or before
    the end of the previous one. *)
Fixpoint ordered_from (next : nat) (ms : list (nat * MatchRes)) : Prop :=
  match ms with
  | [] => True
  | (q, r) :: ms' => next <= q /\ ordered_from (m_end r) ms'
  end.

Definition code_ok (st : St) : Prop :=
  last_error st = PREG_NO_ERROR \/ last_error st = PREG_INTERNAL_ERROR.

Definition has_key (k : key) (o : obj) : Prop := obj_get o k <> None.

(** The replacer of [replace_with_limit] under a non-negative limit. *)
Definition limit_cb (limit : Z) (r : string) : Z -> string -> string * Z :=
  fun localCount matched =>
    if Z.leb limit localCount then (matched, localCount) else (r, (localCount + 1)%Z).

(** A pattern literal that compiles (whatever the error state). *)
Definition compiles `{RE : NativeRegExp} (p : string) : Prop := fst (compile p false init_state) <> None.

(** A backslash before each character satisfying [P], the others unchanged. *)
Fixpoint esc_str (P : ascii -> bool) (s : string) : string :=
  match s with
  | EmptyString => EmptyString
  | String c rest =>
      if P c then String bslash (String c (esc_str P rest)) else String c (esc_str P rest)
  end.

(** A backslash at each of the [length s + 1] positions of [s]. *)
Fixpoint bs_every (s : string) : string :=
  match s with
  | EmptyString => String bslash EmptyString
  | String c rest => String bslash (String c (bs_every rest))
  end.

(** The texts between consecutive occurrences [ms], from [next] on. *)
Fixpoint gaps (s : string) (next : nat) (ms : list (nat * MatchRes)) : list string :=
  match ms with
  | [] => [slice s next (String.length s)]
  | (q, r) :: ms' => slice s next q :: gaps s (m_end r) ms'
  end.

(** [p0 ++ sep0 ++ p1 ++ sep1 ++ ... ++ pn]: pieces with separators put back. *)
Fixpoint weave (ps seps : list string) : string :=
  match ps, seps with
  | p :: ps', sep :: seps' => p ++ sep ++ weave ps' seps'
  | p :: _, [] => p
  | [], _ => ""
  end.

(** * Proofs *)

(** ** The extended-mode preprocessor *)

Lemma strip_skip_comment (ic : bool) (com rest : string) :
  no_newline com ->
  strip_loop ic false (String "#" (com ++ String nl rest))
  = (if ic then String "#" (strip_loop ic false (com ++ String nl rest))
     else strip_loop ic false rest).
Proof.
  intros H. destruct ic; [reflexivity|].
  simpl. induction com as [|c com IH]; simpl.
  - reflexivity.
  - unfold no_newline in H. simpl in H.
    assert (Hc : Ascii.eqb c nl = false)
      by (apply Ascii.eqb_neq; intro E; apply H; left; exact E).
    rewrite Hc. apply IH. intro Hin; apply H; right; exact Hin.
Qed.

Lemma strip_comment_to_end (com : string) :
  no_newline com -> strip_loop false false (String "#" com) = "".
Proof.
  intros H. simpl. induction com as [|c com IH]; simpl.
  - reflexivity.
  - unfold no_newline in H. simpl in H.
    assert (Hc : Ascii.eqb c nl = false)
      by (apply Ascii.eqb_neq; intro E; apply H; left; exact E).
    rewrite Hc. apply IH. intro Hin; apply H; right; exact Hin.
Qed.

Lemma strip_class_body (w s : string) :
  class_body w -> strip_loop true false (w ++ s) = w ++ strip_loop true false s.
Proof.
  induction 1 as [|c w Hb Hr _ IH|c w _ IH]; simpl.
  - reflexivity.
  - apply Ascii.eqb_neq in Hb, Hr. rewrite Hb, Hr. simpl.
    destruct (Ascii.eqb c "[") ; simpl; rewrite IH; reflexivity.
  - rewrite IH. reflexivity.
Qed.

(** C7: stripExtended is a single left-to-right scan: an escape pair is copied
    in any context; an unescaped [[] opens a class and []] closes it; outside a
    class a [#] and everything through the end of line is dropped, and
    whitespace is dropped; anything else is copied; the content of a class is
    never altered; ["a b #comment\nc"] becomes ["abc"]. *)
Theorem stripExtended_scan :
  (forall ic c rest,
      strip_loop ic false (String bslash (String c rest))
      = String bslash (String c (strip_loop ic false rest))) /\
  (forall rest, strip_loop false false (String "[" rest) = String "[" (strip_loop true false rest)) /\
  (forall rest, strip_loop true false (String "]" rest) = String "]" (strip_loop false false rest)) /\
  (forall com rest, no_newline com ->
      strip_loop false false (String "#" (com ++ String nl rest)) = strip_loop false false rest) /\
  (forall com, no_newline com -> strip_loop false false (String "#" com) = "") /\
  (forall c rest, is_js_space c = true ->
      strip_loop false false (String c rest) = strip_loop false false rest) /\
  (forall c rest, c <> bslash -> c <> "["%char -> c <> "#"%char -> is_js_space c = false ->
      strip_loop false false (String c rest) = String c (strip_loop false false rest)) /\
  (forall w v, class_body w ->
      stripExtended (String "[" (w ++ String "]" v)) = String "[" (w ++ String "]" (stripExtended v))) /\
  stripExtended ("a b #comment" ++ String nl "c") = "abc".
Proof.
  split; [reflexivity|]. split; [reflexivity|]. split; [reflexivity|].
  split; [intros com rest H; apply (strip_skip_comment false); exact H|].
  split; [exact strip_comment_to_end|].
  split.
  { intros c rest Hs. simpl.
    destruct (Ascii.eqb c bslash) eqn:E1.
    - apply Ascii.eqb_eq in E1; subst; discriminate Hs.
    - destruct (Ascii.eqb c "[") eqn:E2; simpl.
      + apply Ascii.eqb_eq in E2; subst; discriminate Hs.
      + destruct (Ascii.eqb c "#") eqn:E3; simpl.
        * apply Ascii.eqb_eq in E3; subst; discriminate Hs.
        * rewrite Hs, andb_false_r. reflexivity. }
  split.
  { intros c rest H1 H2 H3 Hs. simpl.
    apply Ascii.eqb_neq in H1, H2, H3. rewrite H1, H2. simpl. rewrite H3, Hs, andb_false_r. reflexivity. }
  split.
  { intros w v Hw. unfold stripExtended. simpl.
    rewrite strip_class_body by exact Hw. reflexivity. }
  reflexivity.
Qed.

(** ** String lemmas *)

Lemma str_length_app (a b : string) :
  String.length (a ++ b) = String.length a + String.length b.
Proof. induction a as [|c a IH]; simpl; [reflexivity | rewrite IH; reflexivity]. Qed.

Lemma str_app_assoc (a b c : string) : (a ++ b) ++ c = a ++ (b ++ c).
Proof. induction a as [|x a IH]; simpl; [reflexivity | rewrite IH; reflexivity]. Qed.

Lemma str_app_nil_r (a : string) : a ++ "" = a.
Proof. induction a as [|x a IH]; simpl; [reflexivity | rewrite IH; reflexivity]. Qed.

Lemma list_ascii_app (a b : string) :
  list_ascii_of_string (a ++ b) = (list_ascii_of_string a ++ list_ascii_of_string b)%list.
Proof. induction a as [|x a IH]; simpl; [reflexivity | rewrite IH; reflexivity]. Qed.

Lemma substring_full (s : string) : substring 0 (String.length s) s = s.
Proof. induction s as [|c s IH]; simpl; [reflexivity | rewrite IH; reflexivity]. Qed.

Lemma substring_app_l (a b : string) : substring 0 (String.length a) (a ++ b) = a.
Proof. induction a as [|c a IH]; simpl; [destruct b; reflexivity | rewrite IH; reflexivity]. Qed.

Lemma substring_app_r (a b : string) (n k : nat) :
  substring (String.length a + n) k (a ++ b) = substring n k b.
Proof. induction a as [|c a IH]; simpl; [reflexivity | exact IH]. Qed.

Lemma last_index_none (c : ascii) (s : string) :
  ~ In c (list_ascii_of_string s) -> last_index_of c s = None.
Proof.
  induction s as [|d s IH]; simpl; intros H; [reflexivity|].
  rewrite IH by tauto.
  destruct (Ascii.eqb c d) eqn:E; [|reflexivity].
  apply Ascii.eqb_eq in E. exfalso; apply H; left; symmetry; exact E.
Qed.

Lemma last_index_app (c : ascii) (a b : string) :
  ~ In c (list_ascii_of_string b) ->
  last_index_of c (a ++ String c b) = Some (String.length a).
Proof.
  intros H. induction a as [|d a IH]; simpl.
  - rewrite last_index_none by exact H. rewrite Ascii.eqb_refl. reflexivity.
  - rewrite IH. reflexivity.
Qed.

Lemma list_filter_str (f : ascii -> bool) (s : string) :
  list_ascii_of_string (filter_str f s) = filter f (list_ascii_of_string s).
Proof. induction s as [|c s IH]; simpl; [reflexivity | destruct (f c); simpl; rewrite IH; reflexivity]. Qed.

(** ** The modifier loop *)

Ltac all_chars c := destruct c as [[] [] [] [] [] [] [] []].

Lemma parse_mods_step (m : ascii) (rest flags : string) (ext : bool) :
  mod_known m = true ->
  parse_mods (String m rest) flags ext
  = parse_mods rest (flags ++ filter_str native_mod (String m "")) (Ascii.eqb "x" m || ext).
Proof.
  intros H. all_chars m; try discriminate H; simpl; try rewrite str_app_nil_r; reflexivity.
Qed.

Lemma parse_mods_unknown (m : ascii) (rest flags : string) (ext : bool) :
  mod_known m = false -> exists msg, parse_mods (String m rest) flags ext = inl msg.
Proof. intros H. all_chars m; try discriminate H; eexists; reflexivity. Qed.

Lemma parse_mods_ok (mods flags : string) (ext : bool) :
  forallb mod_known (list_ascii_of_string mods) = true ->
  parse_mods mods flags ext
  = inr (flags ++ filter_str native_mod mods,
         existsb (Ascii.eqb "x") (list_ascii_of_string mods) || ext).
Proof.
  revert flags ext. induction mods as [|m mods IH]; intros flags ext H; simpl in H.
  - simpl. rewrite str_app_nil_r. reflexivity.
  - apply andb_prop in H as [Hm Hr].
    rewrite parse_mods_step by exact Hm. rewrite IH by exact Hr.
    rewrite str_app_assoc. f_equal. f_equal.
    + f_equal. simpl. destruct (native_mod m); reflexivity.
    + cbn [list_ascii_of_string existsb].
      destruct (Ascii.eqb "x" m), (existsb (Ascii.eqb "x") (list_ascii_of_string mods)), ext;
        reflexivity.
Qed.

Lemma parse_mods_fail (mods flags : string) (ext : bool) :
  forallb mod_known (list_ascii_of_string mods) = false ->
  exists msg, parse_mods mods flags ext = inl msg.
Proof.
  revert flags ext. induction mods as [|m mods IH]; intros flags ext H; simpl in H.
  - discriminate H.
  - destruct (mod_known m) eqn:Hm.
    + rewrite parse_mods_step by exact Hm. apply IH. exact H.
    + apply parse_mods_unknown. exact Hm.
Qed.

(** ** Deduplication *)

Lemma dedupe_aux_spec (seen : list ascii) (s : string) :
  NoDup (list_ascii_of_string (dedupe_aux seen s)) /\
  (forall c, In c (list_ascii_of_string (dedupe_aux seen s))
             <-> In c (list_ascii_of_string s) /\ ~ In c seen).
Proof.
  revert seen. induction s as [|d s IH]; intros seen; simpl.
  - split; [constructor | intros c; simpl; tauto].
  - destruct (existsb (Ascii.eqb d) seen) eqn:E.
    + destruct (IH seen) as [H1 H2]. split; [exact H1|].
      intros c. rewrite H2. split; [tauto|].
      intros [[<-|Hin] Hn]; [|tauto].
      exfalso. apply existsb_exists in E as [x [Hx Ex]].
      apply Ascii.eqb_eq in Ex; subst. exact (Hn Hx).
    + destruct (IH (d :: seen)) as [H1 H2]. simpl. split.
      * constructor; [|exact H1]. intros Hin. apply H2 in Hin. simpl in Hin. tauto.
      * intros c. simpl. rewrite H2. simpl. split.
        -- intros [E0|[Hin Hn]]; [|tauto]. rewrite <- E0.
           split; [left; reflexivity|].
           intros Hs. assert (existsb (Ascii.eqb d) seen = true)
             by (apply existsb_exists; exists d; split; [exact Hs | apply Ascii.eqb_refl]).
           congruence.
        -- intros [[E0|Hin] Hn]; [left; exact E0|].
           destruct (Ascii.eqb_spec d c) as [E1|Hne]; [left; exact E1|].
           right. split; [exact Hin|]. intros [E'|E']; [exact (Hne E') | exact (Hn E')].
Qed.

Lemma parsePattern_literal (d : ascii) (body mods : string) :
  ~ In d (list_ascii_of_string mods) ->
  parsePattern (String d (body ++ String d mods))
  = match parse_mods mods "g" false with
    | inl msg => inl msg
    | inr (flags, extended) =>
        inr {| p_source := if extended then stripExtended body else body;
               p_flags := dedupe flags; p_modifiers := mods |}
    end.
Proof.
  intros Hd. unfold parsePattern.
  assert (Hl : Nat.ltb (String.length (String d (body ++ String d mods))) 2 = false).
  { apply Nat.ltb_ge. simpl. rewrite str_length_app. simpl. lia. }
  rewrite Hl.
  change (String d (body ++ String d mods)) with (String d body ++ String d mods).
  rewrite last_index_app by exact Hd.
  replace (String.length (String d body)) with (S (String.length body)) by reflexivity.
  change (String d body ++ String d mods) with (String d (body ++ String d mods)).
  assert (Hb : slice (String d (body ++ String d mods)) 1 (S (String.length body)) = body).
  { unfold slice. simpl. rewrite Nat.sub_0_r. apply substring_app_l. }
  assert (Hm : substring (S (S (String.length body)))
                 (String.length (String d (body ++ String d mods)) - S (S (String.length body)))
                 (String d (body ++ String d mods)) = mods).
  { simpl. rewrite str_length_app. simpl.
    replace (S (String.length body)) with (String.length body + 1) by lia.
    rewrite substring_app_r. simpl.
    replace (String.length body + S (String.length mods) - (String.length body + 1))
      with (String.length mods) by lia.
    apply substring_full. }
  rewrite Hb, Hm. reflexivity.
Qed.

(** C6: for a literal [d body d mods] (the modifier string holds no
    delimiter), each modifier is read as follows: [i], [m], [s], [u] go into the
    flags; [x] only selects the extended preprocessing of the body and never
    reaches the flags; [A], [U], [D], [S], [J] are dropped; any other character,
    [e] among them, makes the parse fail, [compile] return its [null] sentinel
    and [preg_match] return [false].  The flags hold no character twice. *)
Theorem parsePattern_modifiers `{RE : NativeRegExp} (d : ascii) (body mods : string) :
  ~ In d (list_ascii_of_string mods) ->
  (forallb mod_known (list_ascii_of_string mods) = true ->
     exists p, parsePattern (String d (body ++ String d mods)) = inr p /\
       p_flags p = dedupe (String "g" (filter_str native_mod mods)) /\
       NoDup (list_ascii_of_string (p_flags p)) /\
       (forall c, In c (list_ascii_of_string (p_flags p)) <->
                  c = "g"%char \/ (In c (list_ascii_of_string mods) /\ native_mod c = true)) /\
       ~ In "x"%char (list_ascii_of_string (p_flags p)) /\
       p_source p = (if existsb (Ascii.eqb "x") (list_ascii_of_string mods)
                     then stripExtended body else body)) /\
  (forallb mod_known (list_ascii_of_string mods) = false ->
     (exists msg, parsePattern (String d (body ++ String d mods)) = inl msg) /\
     forall single st subj c f o,
       fst (compile (String d (body ++ String d mods)) single st) = None /\
       fst (fst (preg_match (String d (body ++ String d mods)) subj c f o st)) = PFalse) /\
  (In "e"%char (list_ascii_of_string mods) -> forallb mod_known (list_ascii_of_string mods) = false).
Proof.
  intros Hd. rewrite parsePattern_literal by exact Hd.
  split; [|split].
  - intros Hk. rewrite parse_mods_ok by exact Hk. rewrite orb_false_r.
    destruct (dedupe_aux_spec [] (String "g" (filter_str native_mod mods))) as [Hn Hin].
    eexists; split; [reflexivity|]. simpl p_flags. simpl p_source.
    split; [reflexivity|]. split; [exact Hn|].
    assert (Hmem : forall c, In c (list_ascii_of_string (dedupe (String "g" (filter_str native_mod mods))))
                   <-> c = "g"%char \/ (In c (list_ascii_of_string mods) /\ native_mod c = true)).
    { intros c. unfold dedupe. rewrite Hin. simpl. rewrite list_filter_str, filter_In.
      split; [intros [[E|H] _]; [left; symmetry; exact E | right; exact H]|].
      intros [E|H]; split; [left; symmetry; exact E | tauto | right; exact H | tauto]. }
    split; [exact Hmem|]. split; [|reflexivity].
    intros Hx. apply Hmem in Hx as [E|[_ E]]; discriminate E.
  - intros Hk. destruct (parse_mods_fail mods "g" false Hk) as [msg Hm]. rewrite Hm.
    split; [exists msg; reflexivity|].
    intros single st subj c f o.
    unfold preg_match, compile. rewrite parsePattern_literal, Hm by exact Hd.
    split; reflexivity.
  - intros He. apply not_true_iff_false. intros Hk.
    rewrite forallb_forall in Hk. specialize (Hk _ He). discriminate Hk.
Qed.

Lemma parsePattern_modifiers_witness :
  ~ In "/"%char (list_ascii_of_string "imx") /\
  exists p, parsePattern "/a b/imx" = inr p /\ p_flags p = "gim" /\ p_source p = "ab".
Proof.
  assert (Hd : ~ In "/"%char (list_ascii_of_string "imx"))
    by (simpl; intros [H|[H|[H|H]]]; [discriminate H..|exact H]).
  split; [exact Hd|].
  destruct (proj1 (@parsePattern_modifiers LiteralEngine "/" "a b" "imx" Hd) eq_refl)
    as [p [Hp [Hf [_ [_ [_ Hs]]]]]].
  exists p. split; [exact Hp|]. split; [rewrite Hf; reflexivity | rewrite Hs; reflexivity].
Defined.

(** ** The error state *)

Section ErrorState.
Context `{RE : NativeRegExp}.

Lemma compile_code_ok (pat : string) (single : bool) (st : St) : code_ok (snd (compile pat single st)).
Proof.
  unfold compile, code_ok.
  destruct (parsePattern pat) as [msg|p]; [simpl; right; reflexivity|].
  destruct (native_RegExp _ _); simpl; [right | left]; reflexivity.
Qed.

Ltac after_compile E :=
  pose proof (f_equal snd E) as E'; simpl in E'; rewrite <- E'; apply compile_code_ok.

Lemma replace_pats_code_ok pats i reps limit out total st :
  code_ok st -> code_ok (snd (replace_pats pats i reps limit out total st)).
Proof.
  revert i out total st. induction pats as [|p ps IH]; intros i out total st H; simpl; [exact H|].
  destruct (compile p false st) as [re st1] eqn:E.
  assert (H1 : code_ok st1) by after_compile E.
  destruct re as [m|]; [|exact H1].
  destruct (replace_with_limit m _ limit out). apply IH. exact H1.
Qed.

Lemma replace_subjects_code_ok pats reps limit ss total st :
  code_ok st -> code_ok (snd (replace_subjects pats reps limit ss total st)).
Proof.
  revert total st. induction ss as [|s ss IH]; intros total st H; simpl; [exact H|].
  destruct (replace_pats pats 0 reps limit s total st) as [[res total1] st1] eqn:E.
  assert (H1 : code_ok st1)
    by (pose proof (f_equal snd E) as E'; simpl in E'; rewrite <- E';
        apply replace_pats_code_ok; exact H).
  specialize (IH total1 st1 H1).
  destruct (replace_subjects pats reps limit ss total1 st1) as [[rest total2] st2]. exact IH.
Qed.

Lemma run_call_code_ok (c : call) (st : St) : code_ok st -> code_ok (run_call c st).
Proof.
  intros H. destruct c as [str d|p s m f o|p s m f o|p r s l|p s l f|p i f| |]; simpl.
  - exact H.
  - unfold preg_match. destruct (compile p true st) as [re st1] eqn:E.
    assert (H1 : code_ok st1) by after_compile E.
    destruct re as [mt|]; [destruct (exec_at mt _ 0) as [[q r]|]|]; exact H1.
  - unfold preg_match_all. destruct (compile p false st) as [re st1] eqn:E.
    assert (H1 : code_ok st1) by after_compile E.
    destruct re; exact H1.
  - unfold preg_replace. destruct s as [s|ss].
    + pose proof (replace_pats_code_ok (as_list p) 0 (as_list r) l s 0%Z st H) as H1.
      destruct (replace_pats _ _ _ _ _ _ _) as [[res t] st1]. exact H1.
    + pose proof (replace_subjects_code_ok (as_list p) (as_list r) l ss 0%Z st H) as H1.
      destruct (replace_subjects _ _ _ _ _ _) as [[res t] st1]. exact H1.
  - unfold preg_split. destruct (compile p false st) as [re st1] eqn:E.
    assert (H1 : code_ok st1) by after_compile E.
    destruct re; [destruct (Z.ltb 0 l)|]; exact H1.
  - unfold preg_grep. destruct (compile p true st) as [re st1] eqn:E.
    assert (H1 : code_ok st1) by after_compile E.
    destruct re; exact H1.
  - exact H.
  - exact H.
Qed.

End ErrorState.

(** C8: every compile attempt leaves the error state at [PREG_NO_ERROR] with
    message ["PREG_NO_ERROR"] when it yields a regex, and at
    [PREG_INTERNAL_ERROR] with the message of the error thrown (by the parser
    or by the engine) when it yields [null]; from the initial state, whatever
    the calls, the code is [0] or [1]; [preg_last_error] and
    [preg_last_error_msg] leave the state as it is, so reading twice gives the
    same values. *)
Theorem error_state_two_valued `{RE : NativeRegExp} :
  (forall pat single st,
     (exists m, compile pat single st
                = (Some m, {| last_error := PREG_NO_ERROR; last_error_msg := "PREG_NO_ERROR" |})) \/
     (fst (compile pat single st) = None /\
      last_error (snd (compile pat single st)) = PREG_INTERNAL_ERROR /\
      (parsePattern pat = inl (last_error_msg (snd (compile pat single st))) \/
       exists p, parsePattern pat = inr p /\
         native_RegExp (p_source p) (if single then drop_first_g (p_flags p) else p_flags p)
         = inl (last_error_msg (snd (compile pat single st)))))) /\
  (forall st, reachable st -> last_error st = PREG_NO_ERROR \/ last_error st = PREG_INTERNAL_ERROR) /\
  (forall st,
     snd (preg_last_error st) = st /\ snd (preg_last_error_msg st) = st /\
     fst (preg_last_error (snd (preg_last_error_msg st))) = fst (preg_last_error st) /\
     fst (preg_last_error_msg (snd (preg_last_error st))) = fst (preg_last_error_msg st) /\
     fst (preg_last_error (snd (preg_last_error st))) = fst (preg_last_error st) /\
     fst (preg_last_error_msg (snd (preg_last_error_msg st))) = fst (preg_last_error_msg st)).
Proof.
  split; [|split].
  - intros pat single st. unfold compile.
    destruct (parsePattern pat) as [msg|p] eqn:Ep.
    + right. simpl. split; [reflexivity|]. split; [reflexivity|]. left; reflexivity.
    + destruct (native_RegExp _ _) as [msg|m] eqn:En.
      * right. simpl. split; [reflexivity|]. split; [reflexivity|].
        right. exists p. split; [reflexivity | exact En].
      * left. exists m. reflexivity.
  - induction 1 as [|c st _ IH].
    + left; reflexivity.
    + apply (run_call_code_ok c st IH).
  - intros st. repeat split.
Qed.

(** ** Objects as property lists *)

Lemma key_eqb_spec (k1 k2 : key) : key_eqb k1 k2 = true <-> k1 = k2.
Proof.
  destruct k1 as [a|a], k2 as [b|b]; simpl; split; intros H; try discriminate H.
  - apply Nat.eqb_eq in H; subst; reflexivity.
  - injection H as ->. apply Nat.eqb_refl.
  - apply String.eqb_eq in H; subst; reflexivity.
  - injection H as ->. apply String.eqb_refl.
Qed.

Lemma key_eqb_refl (k : key) : key_eqb k k = true.
Proof. apply key_eqb_spec; reflexivity. Qed.

Lemma key_eqb_neq (k1 k2 : key) : k1 <> k2 -> key_eqb k1 k2 = false.
Proof. intros H. apply not_true_iff_false. intros E. apply H, key_eqb_spec, E. Qed.

Lemma obj_get_set (o : obj) (k k' : key) (v : jsval) :
  obj_get (obj_set o k v) k' = if key_eqb k' k then Some v else obj_get o k'.
Proof.
  induction o as [|[k1 v1] o IH]; simpl.
  - reflexivity.
  - destruct (key_eqb k k1) eqn:E; simpl.
    + apply key_eqb_spec in E; subst k1.
      destruct (key_eqb k' k); reflexivity.
    + rewrite IH. destruct (key_eqb k' k1) eqn:E1, (key_eqb k' k) eqn:E2; try reflexivity.
      apply key_eqb_spec in E1, E2; subst. rewrite key_eqb_refl in E. discriminate E.
Qed.

Lemma obj_set_keys (o : obj) (k : key) (v : jsval) (k' : key) :
  In k' (map fst (obj_set o k v)) <-> k' = k \/ In k' (map fst o).
Proof.
  induction o as [|[k1 v1] o IH]; simpl.
  - intuition congruence.
  - destruct (key_eqb k k1) eqn:E; simpl.
    + apply key_eqb_spec in E; subst k1. intuition congruence.
    + rewrite IH. intuition congruence.
Qed.

Lemma obj_set_nodup (o : obj) (k : key) (v : jsval) :
  NoDup (map fst o) -> NoDup (map fst (obj_set o k v)).
Proof.
  induction o as [|[k1 v1] o IH]; simpl; intros H.
  - constructor; [intros []|constructor].
  - inversion H as [|x l Hn Hd]; subst.
    destruct (key_eqb k k1) eqn:E; simpl.
    + apply key_eqb_spec in E; subst k1. constructor; assumption.
    + constructor; [|apply IH; exact Hd].
      rewrite obj_set_keys. intros [E'|E']; [|exact (Hn E')].
      subst k1. rewrite key_eqb_refl in E. discriminate E.
Qed.

(** [Object.assign] reads back the source's properties over the target's. *)
Lemma obj_get_assign (t src : obj) (k : key) :
  NoDup (map fst src) ->
  obj_get (obj_assign t src) k = match obj_get src k with Some v => Some v | None => obj_get t k end.
Proof.
  unfold obj_assign. revert t. induction src as [|[k1 v1] src IH]; intros t H; simpl.
  - reflexivity.
  - inversion H as [|x l Hn Hd]; subst. rewrite IH by exact Hd. simpl.
    destruct (key_eqb k k1) eqn:E.
    + apply key_eqb_spec in E; subst k1.
      assert (Hg : obj_get src k = None).
      { clear -Hn. induction src as [|[k2 v2] src IH]; simpl in *; [reflexivity|].
        rewrite key_eqb_neq by (intro E0; subst; tauto). apply IH. tauto. }
      rewrite Hg, obj_get_set, key_eqb_refl. reflexivity.
    + rewrite obj_get_set, E. reflexivity.
Qed.

Lemma fold_nodup {A : Type} (F : obj -> A -> obj) (l : list A) (o : obj) :
  (forall o a, NoDup (map fst o) -> NoDup (map fst (F o a))) ->
  NoDup (map fst o) -> NoDup (map fst (fold_left F l o)).
Proof.
  intros HF. revert o. induction l as [|a l IH]; intros o H; simpl; [exact H|].
  apply IH, HF, H.
Qed.

Lemma caps_values_nodup i caps u out :
  NoDup (map fst out) -> NoDup (map fst (caps_values i caps u out)).
Proof.
  revert i out. induction caps as [|c cs IH]; intros i out H; simpl; [exact H|].
  apply IH, obj_set_nodup, H.
Qed.

Lemma caps_offsets_nodup m0 base i cursor caps u out :
  NoDup (map fst out) -> NoDup (map fst (caps_offsets m0 base i cursor caps u out)).
Proof.
  revert i cursor out. induction caps as [|[g|] cs IH]; intros i cursor out H; simpl; [exact H| |];
    apply IH, obj_set_nodup, H.
Qed.

(** Every result row has each key once. *)
Lemma build_row_nodup flags s q r offset : NoDup (map fst (build_row flags s q r offset)).
Proof.
  assert (H0 : NoDup (map fst (@nil (key * jsval)))) by constructor.
  unfold build_row. destruct (negb _).
  - unfold withOffsets. destruct (m_groups r) as [gs|].
    + unfold groups_offsets. apply fold_nodup.
      * intros o [k [v|]] Ho; apply obj_set_nodup, Ho.
      * apply caps_offsets_nodup, obj_set_nodup, H0.
    + apply caps_offsets_nodup, obj_set_nodup, H0.
  - unfold withValues. destruct (m_groups r) as [gs|].
    + apply fold_nodup.
      * intros o [k [v|]] Ho; apply obj_set_nodup, Ho.
      * apply caps_values_nodup, obj_set_nodup, H0.
    + apply caps_values_nodup, obj_set_nodup, H0.
Qed.

(** After a write, the container holds every property of the written row. *)
Lemma write_container_get (c : container) (out : obj) (k : key) (v : jsval) :
  NoDup (map fst out) -> obj_get out k = Some v -> obj_get (c_props (write_container c out)) k = Some v.
Proof.
  intros Hd Hk. unfold write_container. destruct (c_is_array c); simpl;
    rewrite obj_get_assign, Hk by exact Hd; reflexivity.
Qed.

(** ** preg_match *)

(** C5: preg_match answers [false] exactly when the literal does not compile;
    for a compiled literal it answers [0] when [exec] finds no match in the
    subject from the offset, and [1] when it finds one, in which case a
    supplied container receives the result row (every key of the row is read
    back from the container with the row's value).  [0] is not [false]. *)
Theorem preg_match_three_valued `{RE : NativeRegExp}
    (pattern subject : string) (matches : option container) (flags offset : Z) (st : St) :
  (fst (fst (preg_match pattern subject matches flags offset st)) = PFalse
     <-> fst (compile pattern true st) = None) /\
  (forall m, fst (compile pattern true st) = Some m ->
     (fst (fst (preg_match pattern subject matches flags offset st)) = PInt 0
        <-> exec_at m (subject_from subject offset) 0 = None) /\
     (forall q r, exec_at m (subject_from subject offset) 0 = Some (q, r) ->
        fst (fst (preg_match pattern subject matches flags offset st)) = PInt 1 /\
        forall c, matches = Some c ->
          exists c', snd (fst (preg_match pattern subject matches flags offset st)) = Some c' /\
          forall k v, obj_get (build_row flags (subject_from subject offset) q r offset) k = Some v ->
                      obj_get (c_props c') k = Some v)) /\
  (fst (fst (preg_match pattern subject matches flags offset st)) = PFalse \/
   fst (fst (preg_match pattern subject matches flags offset st)) = PInt 0 \/
   fst (fst (preg_match pattern subject matches flags offset st)) = PInt 1) /\
  PInt 0 <> PFalse.
Proof.
  unfold preg_match.
  destruct (compile pattern true st) as [re st1] eqn:E. simpl fst.
  split; [|split; [|split]].
  - destruct re as [m|]; [|tauto].
    destruct (exec_at m _ 0) as [[q r]|]; simpl; split; intros H; discriminate H.
  - intros m Hm. subst re.
    split.
    + destruct (exec_at m _ 0) as [[q r]|]; simpl; split; intros H; try discriminate H; reflexivity.
    + intros q r Hx. rewrite Hx. simpl. split; [reflexivity|].
      intros c ->. eexists; split; [reflexivity|].
      intros k v Hk. apply write_container_get; [apply build_row_nodup | exact Hk].
  - destruct re as [m|]; [|left; reflexivity].
    destruct (exec_at m _ 0) as [[q r]|]; simpl; right; [right|left]; reflexivity.
  - discriminate.
Qed.

(** C10: when preg_match answers [0] or [false], the caller's container is
    returned untouched; it is written only on [1]. *)
Theorem preg_match_frame `{RE : NativeRegExp}
    (pattern subject : string) (matches : option container) (flags offset : Z) (st : St) :
  fst (fst (preg_match pattern subject matches flags offset st)) <> PInt 1 ->
  snd (fst (preg_match pattern subject matches flags offset st)) = matches.
Proof.
  unfold preg_match.
  destruct (compile pattern true st) as [re st1]. destruct re as [m|]; [|reflexivity].
  destruct (exec_at m _ 0) as [[q r]|]; simpl; [|reflexivity].
  intros H. exfalso. apply H. reflexivity.
Qed.

Lemma preg_match_frame_witness :
  preg_match (RE:=LiteralEngine) "/z/" "abc" (Some {| c_is_array := false; c_props := [(KName "keep", JNum 7)] |}) 0 0 init_state
  = (PInt 0, Some {| c_is_array := false; c_props := [(KName "keep", JNum 7)] |},
     {| last_error := 0; last_error_msg := "PREG_NO_ERROR" |}) /\
  snd (fst (preg_match (RE:=LiteralEngine) "/z/" "abc"
              (Some {| c_is_array := false; c_props := [(KName "keep", JNum 7)] |}) 0 0 init_state))
  = Some {| c_is_array := false; c_props := [(KName "keep", JNum 7)] |}.
Proof.
  split; [vm_compute; reflexivity|].
  apply (@preg_match_frame LiteralEngine). vm_compute. discriminate.
Defined.

(** ** preg_match_all *)

Lemma fold_pres {A : Type} (P : obj -> Prop) (F : obj -> A -> obj) (l : list A) (o : obj) :
  (forall o a, P o -> P (F o a)) -> P o -> P (fold_left F l o).
Proof.
  intros HF. revert o. induction l as [|a l IH]; intros o H; simpl; [exact H|].
  apply IH, HF, H.
Qed.

Lemma obj_set_has_key (o : obj) (k k' : key) (v : jsval) : has_key k' o -> has_key k' (obj_set o k v).
Proof.
  unfold has_key. rewrite obj_get_set. destruct (key_eqb k' k); [discriminate | exact id].
Qed.

Lemma caps_values_has_key k i caps u out : has_key k out -> has_key k (caps_values i caps u out).
Proof.
  revert i out. induction caps as [|c cs IH]; intros i out H; simpl; [exact H|].
  apply IH, obj_set_has_key, H.
Qed.

Lemma caps_offsets_has_key k m0 base i cursor caps u out :
  has_key k out -> has_key k (caps_offsets m0 base i cursor caps u out).
Proof.
  revert i cursor out. induction caps as [|[g|] cs IH]; intros i cursor out H; simpl; [exact H| |];
    apply IH, obj_set_has_key, H.
Qed.

(** Every row has the whole-match key [0]. *)
Lemma build_row_key0 flags s q r offset : has_key (KIdx 0) (build_row flags s q r offset).
Proof.
  assert (H0 : forall v, has_key (KIdx 0) (obj_set [] (KIdx 0) v))
    by (intros v; unfold has_key; simpl; discriminate).
  unfold build_row. destruct (negb _).
  - unfold withOffsets. destruct (m_groups r) as [gs|].
    + unfold groups_offsets. apply fold_pres.
      * intros o [k [v|]] Ho; apply obj_set_has_key, Ho.
      * apply caps_offsets_has_key, H0.
    + apply caps_offsets_has_key, H0.
  - unfold withValues. destruct (m_groups r) as [gs|].
    + apply fold_pres.
      * intros o [k [v|]] Ho; apply obj_set_has_key, Ho.
      * apply caps_values_has_key, H0.
    + apply caps_values_has_key, H0.
Qed.

Lemma push_row_get (out row : obj) (k : key) :
  NoDup (map fst row) ->
  obj_get (push_row out row) k
  = match obj_get row k with
    | None => obj_get out k
    | Some v => Some (match obj_get out k with Some (JArr l) => JArr (l ++ [v]) | _ => JArr [v] end)
    end.
Proof.
  unfold push_row. revert out. induction row as [|[k1 v1] row IH]; intros out H; simpl.
  - reflexivity.
  - inversion H as [|x l Hn Hd]; subst. rewrite IH by exact Hd. simpl.
    destruct (key_eqb k k1) eqn:E.
    + apply key_eqb_spec in E; subst k1.
      assert (Hg : obj_get row k = None).
      { clear -Hn. induction row as [|[k2 v2] row IH]; simpl in *; [reflexivity|].
        rewrite key_eqb_neq by (intro E0; subst; tauto). apply IH. tauto. }
      rewrite Hg, obj_get_set, key_eqb_refl. reflexivity.
    + destruct (obj_get row k); rewrite obj_get_set, E; reflexivity.
Qed.

Lemma push_rows_key0 (all : list obj) (out : obj) (l0 : list jsval) :
  (forall row, In row all -> NoDup (map fst row) /\ has_key (KIdx 0) row) ->
  obj_get out (KIdx 0) = Some (JArr l0) ->
  obj_get (fold_left push_row all out) (KIdx 0) = Some (JArr (l0 ++ map row0 all)%list).
Proof.
  revert out l0. induction all as [|row all IH]; intros out l0 Hall Hout; simpl.
  - rewrite app_nil_r. exact Hout.
  - destruct (Hall row (or_introl eq_refl)) as [Hd Hk].
    rewrite (IH _ (l0 ++ [row0 row])%list).
    + rewrite <- app_assoc. reflexivity.
    + intros r Hr. apply Hall. right. exact Hr.
    + rewrite push_row_get by exact Hd. rewrite Hout. unfold row0.
      destruct (obj_get row (KIdx 0)) as [v|] eqn:Eg; [reflexivity | exfalso; exact (Hk Eg)].
Qed.

(** The whole-match column of the pattern-order output lists every row's [0]. *)
Lemma pattern_order_key0 (all : list obj) :
  (forall row, In row all -> NoDup (map fst row) /\ has_key (KIdx 0) row) ->
  obj_get (pattern_order all) (KIdx 0) = Some (JArr (map row0 all)).
Proof.
  intros Hall. unfold pattern_order. destruct all as [|row all'].
  - reflexivity.
  - destruct (Hall row (or_introl eq_refl)) as [Hd Hk].
    assert (H : obj_get (fold_left push_row (row :: all') []) (KIdx 0)
                = Some (JArr (map row0 (row :: all')))).
    { simpl fold_left. apply (push_rows_key0 all' _ [row0 row]).
      - intros r Hr. apply Hall. right. exact Hr.
      - rewrite push_row_get by exact Hd. simpl. unfold row0.
        destruct (obj_get row (KIdx 0)) as [v|] eqn:Eg; [reflexivity | exfalso; exact (Hk Eg)]. }
    rewrite H. exact H.
Qed.

Lemma pattern_order_nodup (all : list obj) : NoDup (map fst (pattern_order all)).
Proof.
  assert (H : NoDup (map fst (fold_left push_row all []))).
  { apply fold_nodup; [|constructor].
    intros o row Ho. unfold push_row. apply fold_nodup; [|exact Ho].
    intros o' kv Ho'. apply obj_set_nodup, Ho'. }
  unfold pattern_order. destruct (obj_get _ (KIdx 0)); [exact H | apply obj_set_nodup, H].
Qed.

(** C9: for a literal that compiles, preg_match_all with PREG_SET_ORDER
    returns the same count [n] as with pattern order, and the pattern-order
    output written into the container has the key [0] holding a list of
    exactly [n] whole matches (the empty list when there is no occurrence). *)
Theorem preg_match_all_set_vs_pattern_order `{RE : NativeRegExp}
    (pattern subject : string) (fs fp offset : Z) (st : St) (ms : option container)
    (c : container) (m : Matcher) :
  Z.land fs PREG_SET_ORDER = PREG_SET_ORDER ->
  Z.land fp PREG_SET_ORDER <> PREG_SET_ORDER ->
  fst (compile pattern false st) = Some m ->
  exists n c' l,
    fst (fst (preg_match_all pattern subject ms fs offset st)) = PInt (Z.of_nat n) /\
    fst (fst (preg_match_all pattern subject (Some c) fp offset st)) = PInt (Z.of_nat n) /\
    snd (fst (preg_match_all pattern subject (Some c) fp offset st)) = Some c' /\
    obj_get (c_props c') (KIdx 0) = Some (JArr l) /\ length l = n.
Proof.
  intros Hs Hp Hc. unfold preg_match_all.
  destruct (compile pattern false st) as [re st1]. simpl in Hc. subst re.
  rewrite (proj2 (Z.eqb_eq _ _) Hs). apply Z.eqb_neq in Hp. rewrite Hp.
  set (subj := subject_from subject offset).
  set (allp := map (fun qr => build_row fp subj (fst qr) (snd qr) offset) (exec_all m subj)).
  exists (length (exec_all m subj)), (write_container c (pattern_order allp)), (map row0 allp).
  simpl. split; [|split; [|split; [|split]]].
  - rewrite length_map. reflexivity.
  - unfold allp. rewrite length_map. reflexivity.
  - reflexivity.
  - apply write_container_get; [apply pattern_order_nodup|].
    apply pattern_order_key0. intros row Hr. unfold allp in Hr.
    apply in_map_iff in Hr as [qr [<- _]]. split; [apply build_row_nodup | apply build_row_key0].
  - unfold allp. rewrite !length_map. reflexivity.
Qed.

Lemma preg_match_all_set_vs_pattern_order_witness :
  exists n c' l,
    fst (fst (preg_match_all (RE:=LiteralEngine) "/a/" "banana" None PREG_SET_ORDER 0 init_state))
      = PInt (Z.of_nat n) /\
    fst (fst (preg_match_all (RE:=LiteralEngine) "/a/" "banana" (Some {| c_is_array := true; c_props := [] |})
                PREG_PATTERN_ORDER 0 init_state)) = PInt (Z.of_nat n) /\
    snd (fst (preg_match_all (RE:=LiteralEngine) "/a/" "banana" (Some {| c_is_array := true; c_props := [] |})
                PREG_PATTERN_ORDER 0 init_state)) = Some c' /\
    obj_get (c_props c') (KIdx 0) = Some (JArr l) /\ length l = n.
Proof.
  apply (@preg_match_all_set_vs_pattern_order LiteralEngine "/a/" "banana" PREG_SET_ORDER
           PREG_PATTERN_ORDER 0 init_state None {| c_is_array := true; c_props := [] |} (lit_matcher "a")).
  - reflexivity.
  - vm_compute. discriminate.
  - reflexivity.
Defined.

(** ** The exec loop and replace *)

Lemma search_spec (m : Matcher) (s : string) (q n q' : nat) (r : MatchRes) :
  search m s q n = Some (q', r) -> q <= q' /\ m s q' = Some r.
Proof.
  revert q. induction n as [|n IH]; intros q H; simpl in H.
  - destruct (m s q) eqn:E; [injection H as <- <-; split; [lia | exact E] | discriminate H].
  - destruct (m s q) eqn:E; [injection H as <- <-; split; [lia | exact E]|].
    apply IH in H as [H1 H2]. split; [lia | exact H2].
Qed.

Lemma exec_at_spec (m : Matcher) (s : string) (li q : nat) (r : MatchRes) :
  exec_at m s li = Some (q, r) -> li <= q /\ m s q = Some r.
Proof.
  unfold exec_at. destruct (Nat.ltb _ li); [discriminate|]. apply search_spec.
Qed.

Lemma ordered_mono (n n' : nat) (ms : list (nat * MatchRes)) :
  n' <= n -> ordered_from n ms -> ordered_from n' ms.
Proof. destruct ms as [|[q r] ms]; simpl; [tauto|]. intros H [H1 H2]. split; [lia | exact H2]. Qed.

Lemma exec_all_fuel_ordered (m : Matcher) (s : string) (fuel li : nat) :
  matcher_wf m -> ordered_from li (exec_all_fuel m fuel s li).
Proof.
  intros Hwf. revert li. induction fuel as [|f IH]; intros li; simpl; [exact I|].
  destruct (exec_at m s li) as [[q r]|] eqn:E; simpl; [|exact I].
  apply exec_at_spec in E as [E1 E2]. split; [exact E1|].
  eapply ordered_mono; [|apply IH]. destruct (Nat.eqb (m_end r) q); lia.
Qed.

Lemma substring_zero (n : nat) (s : string) : substring n 0 s = "".
Proof. revert n. induction s as [|c s IH]; intros [|n]; simpl; try reflexivity. apply IH. Qed.

Lemma slice_empty (s : string) (a b : nat) : b <= a -> slice s a b = "".
Proof. intros H. unfold slice. replace (b - a) with 0 by lia. apply substring_zero. Qed.

Lemma replace_tail (s acc : string) (next : nat) :
  (if Nat.leb (String.length s) next then acc else acc ++ slice s next (String.length s))
  = acc ++ slice s next (String.length s).
Proof.
  destruct (Nat.leb_spec (String.length s) next) as [H|H]; [|reflexivity].
  rewrite slice_empty by exact H. rewrite str_app_nil_r. reflexivity.
Qed.

Lemma replace_build_limit (s r : string) (N : Z) (ms : list (nat * MatchRes)) :
  forall next acc k, ordered_from next ms -> (0 <= k <= N)%Z ->
  replace_build s (limit_cb N r) ms next acc k
  = (acc ++ spec_pieces s r (Z.to_nat (N - k)) ms next,
     (k + Z.of_nat (Nat.min (Z.to_nat (N - k)) (length ms)))%Z).
Proof.
  induction ms as [|[q res] ms IH]; intros next acc k Ho Hk; simpl.
  - rewrite replace_tail. f_equal. lia.
  - destruct Ho as [Hq Ho]. unfold limit_cb at 1.
    destruct (Z.leb_spec N k) as [HN|HN].
    + assert (k = N) by lia. subst k. rewrite Z.sub_diag. simpl.
      rewrite (proj2 (Nat.leb_le _ _) Hq).
      rewrite IH by (exact Ho || lia). rewrite Z.sub_diag. simpl.
      rewrite !str_app_assoc; f_equal; lia.
    + rewrite (proj2 (Nat.leb_le _ _) Hq).
      rewrite IH by (exact Ho || lia).
      replace (Z.to_nat (N - k)) with (S (Z.to_nat (N - (k + 1)))) by lia. simpl.
      rewrite !str_app_assoc; f_equal; lia.
Qed.

Lemma replace_build_all (s r : string) (ms : list (nat * MatchRes)) :
  forall next acc k, ordered_from next ms ->
  replace_build s (fun localCount (_ : string) => (r, (localCount + 1)%Z)) ms next acc k
  = (acc ++ spec_pieces s r (length ms) ms next, (k + Z.of_nat (length ms))%Z).
Proof.
  induction ms as [|[q res] ms IH]; intros next acc k Ho; simpl.
  - rewrite replace_tail. f_equal. lia.
  - destruct Ho as [Hq Ho]. rewrite (proj2 (Nat.leb_le _ _) Hq).
    rewrite IH by exact Ho. rewrite !str_app_assoc; f_equal; lia.
Qed.

Lemma spec_pieces_min (s r : string) (ms : list (nat * MatchRes)) :
  forall n next, spec_pieces s r n ms next = spec_pieces s r (Nat.min n (length ms)) ms next.
Proof.
  induction ms as [|[q res] ms IH]; intros n next.
  - destruct n; reflexivity.
  - destruct n as [|n]; [reflexivity|]. simpl. rewrite (IH n). reflexivity.
Qed.

(** One pattern on one subject: the output replaces the first [k] occurrences,
    [k] being the limit (or all of them), and [k] is the count. *)
Lemma replace_with_limit_spec (m : Matcher) (r : string) (limit : Z) (s : string) :
  matcher_wf m ->
  replace_with_limit m r limit s
  = (spec_pieces s r (substitutions (lim_of limit) (length (exec_all m s))) (exec_all m s) 0,
     Z.of_nat (substitutions (lim_of limit) (length (exec_all m s)))).
Proof.
  intros Hwf. unfold replace_with_limit, js_replace_global, lim_of, substitutions.
  pose proof (exec_all_fuel_ordered m s (S (S (String.length s))) 0 Hwf) as Ho.
  destruct (Z.leb_spec 0 limit) as [H|H].
  - change (fun localCount matched => if Z.leb limit localCount then (matched, localCount)
                                      else (r, (localCount + 1)%Z)) with (limit_cb limit r).
    rewrite replace_build_limit by (exact Ho || lia).
    rewrite Z.sub_0_r, spec_pieces_min. simpl. reflexivity.
  - rewrite replace_build_all by exact Ho. reflexivity.
Qed.

Lemma compile_fst_state_indep `{RE : NativeRegExp} (p : string) (single : bool) (st st' : St) :
  fst (compile p single st) = fst (compile p single st').
Proof.
  unfold compile. destruct (parsePattern p) as [msg|pp]; [reflexivity|].
  destruct (native_RegExp _ _); reflexivity.
Qed.

Lemma compile_wf `{RE : NativeRegExp}
    (Hwf : forall src fl m, native_RegExp src fl = inr m -> matcher_wf m)
    (p : string) (single : bool) (st : St) (m : Matcher) :
  fst (compile p single st) = Some m -> matcher_wf m.
Proof.
  unfold compile. destruct (parsePattern p) as [msg|pp]; simpl; [discriminate|].
  destruct (native_RegExp _ _) eqn:E; simpl; [discriminate|].
  intros H. injection H as <-. exact (Hwf _ _ _ E).
Qed.

Lemma list_sum_app (a b : list nat) : list_sum (a ++ b) = list_sum a + list_sum b.
Proof. induction a as [|x a IH]; simpl; [reflexivity|]. rewrite IH. lia. Qed.

Section ReplaceSpec.
Context `{RE : NativeRegExp}.
Hypothesis Hwf : forall src fl m, native_RegExp src fl = inr m -> matcher_wf m.

Lemma replace_pats_spec (pats : list string) :
  Forall compiles pats ->
  forall i reps limit out total st,
  exists o counts,
    spec_replace_pats pats i reps (lim_of limit) out = Some (o, counts)
    /\ fst (replace_pats pats i reps limit out total st) = (Some o, (total + Z.of_nat (list_sum counts))%Z)
    /\ Forall (fun c : nat => (0 <= limit)%Z -> c <= Z.to_nat limit) counts.
Proof.
  induction 1 as [|p ps Hp Hps IH]; intros i reps limit out total st.
  - exists out, []. simpl. repeat split; [f_equal; lia | constructor].
  - unfold compiles in Hp. simpl.
    destruct (fst (compile p false init_state)) as [m|] eqn:Em; [|congruence].
    assert (Em' : fst (compile p false st) = Some m)
      by (rewrite (compile_fst_state_indep p false st init_state); exact Em).
    destruct (compile p false st) as [re st1] eqn:Ec. simpl in Em'. subst re.
    rewrite (replace_with_limit_spec m _ limit out (compile_wf Hwf p false init_state m Em)).
    destruct (IH (S i) reps limit
                 (spec_pieces out (replacement_for reps i)
                    (substitutions (lim_of limit) (length (exec_all m out))) (exec_all m out) 0)
                 (total + Z.of_nat (substitutions (lim_of limit) (length (exec_all m out))))%Z st1)
      as (o & counts & H1 & H2 & H3).
    exists o, (substitutions (lim_of limit) (length (exec_all m out)) :: counts).
    rewrite H1. split; [reflexivity|]. split.
    + rewrite H2. simpl. f_equal. rewrite Nat2Z.inj_add. lia.
    + constructor; [|exact H3]. intros Hl. unfold substitutions, lim_of.
      destruct (Z.leb_spec 0 limit); [lia|lia].
Qed.

Lemma replace_subjects_spec (pats reps : list string) (limit : Z) :
  Forall compiles pats ->
  forall ss total st,
  exists results,
    Forall2 (fun s res => spec_replace_pats pats 0 reps (lim_of limit) s = Some res) ss results
    /\ fst (replace_subjects pats reps limit ss total st)
       = (map (fun res => RStr (fst res)) results,
          (total + Z.of_nat (list_sum (map (fun res => list_sum (snd res)) results)))%Z).
Proof.
  intros Hc. induction ss as [|s ss IH]; intros total st.
  - exists []. split; [constructor|]. simpl. f_equal. lia.
  - destruct (replace_pats_spec pats Hc 0 reps limit s total st) as (o & counts & H1 & H2 & _).
    simpl. destruct (replace_pats pats 0 reps limit s total st) as [[res total1] st1].
    simpl in H2. injection H2 as -> ->.
    destruct (IH (total + Z.of_nat (list_sum counts))%Z st1) as (results & H3 & H4).
    destruct (replace_subjects pats reps limit ss _ st1) as [[rest total2] st2].
    simpl in H4. injection H4 as -> ->.
    exists ((o, counts) :: results). split; [constructor; assumption|].
    simpl. f_equal. lia.
Qed.

End ReplaceSpec.

Lemma prefix_length (p t : string) : prefix p t = true -> String.length p <= String.length t.
Proof.
  revert t. induction p as [|a p IH]; intros [|b t]; simpl; try discriminate; try lia.
  destruct (ascii_dec a b); [|discriminate]. intros H. specialize (IH t H). lia.
Qed.

Lemma substring_length (s : string) : forall n k, n + k <= String.length s ->
  String.length (substring n k s) = k.
Proof.
  induction s as [|c s IH]; intros [|n] [|k]; simpl; intros H; try lia.
  - rewrite IH by lia. reflexivity.
  - apply IH. lia.
  - apply IH. lia.
Qed.

Lemma lit_matcher_wf (lit : string) : matcher_wf (lit_matcher lit).
Proof.
  intros s q r. unfold lit_matcher, starts_at.
  destruct (Nat.leb_spec q (String.length s)) as [Hq|Hq]; simpl; [|discriminate].
  destruct (prefix lit _) eqn:Ep; [|discriminate].
  intros H. injection H as <-. simpl.
  apply prefix_length in Ep. rewrite substring_length in Ep by lia. lia.
Qed.

Lemma group_matcher_wf (lit : string) : matcher_wf (group_matcher lit).
Proof.
  intros s q r. unfold group_matcher.
  destruct (lit_matcher lit s q) as [r0|] eqn:E; [|discriminate].
  intros H. injection H as <-. simpl. exact (lit_matcher_wf lit s q r0 E).
Qed.

Lemma LiteralEngine_wf (src fl : string) (m : Matcher) :
  @native_RegExp LiteralEngine src fl = inr m -> matcher_wf m.
Proof.
  unfold native_RegExp, LiteralEngine.
  destruct (plain src).
  - intros H. injection H as <-. apply lit_matcher_wf.
  - destruct (_ && _ && _ && _); [|discriminate].
    intros H. injection H as <-. apply group_matcher_wf.
Qed.

(** ** preg_replace: limits and the counter *)

(** C4: with patterns that all compile, [preg_replace] substitutes per pattern
    and per subject the first [min N n] of the [n] occurrences (found left to
    right, without overlap) when [limit = N >= 0], and all of them when
    [limit = -1]; the other occurrences keep their text; the counter is the sum
    of the substitutions over all patterns and subjects; and
    [preg_replace("/a/", "b", "banana", 2)] is ["bbnbna"] with count 2. *)
Theorem preg_replace_limit `{RE : NativeRegExp}
    (Hwf : forall src fl m, native_RegExp src fl = inr m -> matcher_wf m) :
  (forall p st m r limit s,
     fst (compile p false st) = Some m ->
     ordered_from 0 (exec_all m s)
     /\ replace_with_limit m r limit s
        = (spec_pieces s r (substitutions (lim_of limit) (length (exec_all m s))) (exec_all m s) 0,
           Z.of_nat (substitutions (lim_of limit) (length (exec_all m s)))))
  /\ (forall pattern replacement s limit st,
        Forall compiles (as_list pattern) ->
        exists o counts,
          spec_replace_pats (as_list pattern) 0 (as_list replacement) (lim_of limit) s = Some (o, counts)
          /\ fst (preg_replace pattern replacement (One s) limit st) = (RStr o, Z.of_nat (list_sum counts))
          /\ Forall (fun c : nat => (0 <= limit)%Z -> c <= Z.to_nat limit) counts)
  /\ (forall pattern replacement ss limit st,
        Forall compiles (as_list pattern) ->
        exists results,
          Forall2 (fun s res => spec_replace_pats (as_list pattern) 0 (as_list replacement) (lim_of limit) s
                                = Some res) ss results
          /\ fst (preg_replace pattern replacement (Many ss) limit st)
             = (RArr (map (fun res => RStr (fst res)) results),
                Z.of_nat (list_sum (map (fun res => list_sum (snd res)) results))))
  /\ (native_RegExp "a" "g" = inr (lit_matcher "a") ->
      forall st, fst (preg_replace (One "/a/") (One "b") (One "banana") 2 st) = (RStr "bbnbna", 2%Z)).
Proof.
  split; [|split; [|split]].
  - intros p st m r limit s Hc. pose proof (compile_wf Hwf p false st m Hc) as Hm. split.
    + exact (exec_all_fuel_ordered m s _ 0 Hm).
    + exact (replace_with_limit_spec m r limit s Hm).
  - intros pattern replacement s limit st Hc.
    destruct (replace_pats_spec Hwf (as_list pattern) Hc 0 (as_list replacement) limit s 0%Z st)
      as (o & counts & H1 & H2 & H3).
    exists o, counts. split; [exact H1|]. split; [|exact H3].
    unfold preg_replace.
    destruct (replace_pats (as_list pattern) 0 (as_list replacement) limit s 0 st) as [[res total] st1].
    simpl in H2. injection H2 as -> ->. reflexivity.
  - intros pattern replacement ss limit st Hc.
    destruct (replace_subjects_spec Hwf (as_list pattern) (as_list replacement) limit Hc ss 0%Z st)
      as (results & H1 & H2).
    exists results. split; [exact H1|].
    unfold preg_replace.
    destruct (replace_subjects (as_list pattern) (as_list replacement) limit ss 0 st) as [[res total] st1].
    simpl in H2. injection H2 as -> ->. reflexivity.
  - intros Ha st. unfold preg_replace, as_list, replace_pats, compile.
    assert (Hp : parsePattern "/a/" = inr {| p_source := "a"; p_flags := "g"; p_modifiers := "" |})
      by reflexivity.
    rewrite Hp. cbn -[js_replace_global]. rewrite Ha. reflexivity.
Qed.

Lemma preg_replace_limit_witness :
  (forall src fl m, @native_RegExp LiteralEngine src fl = inr m -> matcher_wf m)
  /\ fst (@preg_replace LiteralEngine (One "/a/") (One "b") (One "banana") 2 init_state)
     = (RStr "bbnbna", 2%Z).
Proof.
  split; [exact LiteralEngine_wf|].
  apply (proj2 (proj2 (proj2 (@preg_replace_limit LiteralEngine LiteralEngine_wf)))).
  reflexivity.
Defined.

(** ** preg_quote without a delimiter *)

(** C1: with no delimiter the code compiles [new RegExp("", "g")], which
    matches the empty string at every position, so [preg_quote("abc")] is
    [\a\b\c\] (a backslash before every character and one at the end), while
    the metacharacter escaping alone leaves ["abc"] unchanged. *)
Theorem preg_quote_no_delimiter `{RE : NativeRegExp} :
  native_RegExp "" "g" = inr (lit_matcher "") ->
  escape_meta "abc" = "abc"
  /\ preg_quote "abc" None = Some (String bslash "a" ++ String bslash "b" ++ String bslash "c" ++ String bslash "")
  /\ preg_quote "abc" None <> Some "abc".
Proof.
  intros H. unfold preg_quote. cbv beta iota zeta. rewrite H.
  split; [reflexivity|]. split; [reflexivity|]. vm_compute. congruence.
Qed.

Lemma preg_quote_no_delimiter_witness :
  @native_RegExp LiteralEngine "" "g" = inr (lit_matcher "")
  /\ @preg_quote LiteralEngine "abc" None <> Some "abc".
Proof.
  split; [reflexivity|].
  apply (proj2 (proj2 (@preg_quote_no_delimiter LiteralEngine eq_refl))).
Defined.

(** ** preg_replace when a pattern does not compile *)

Lemma parsePattern_e : exists msg, parsePattern "/a/e" = inl msg.
Proof. eexists. reflexivity. Qed.

(** C3: the [return false] of the code leaves the closure [replaceOne] only:
    with an array of subjects and a pattern that does not compile (here
    ["/a/e"], refused by the parser), the result is an array holding [false]
    once per subject, not [false]; a single subject gives [false]. *)
Theorem preg_replace_array_not_false `{RE : NativeRegExp} :
  (forall r ss limit st,
     fst (preg_replace (One "/a/e") r (Many ss) limit st) = (RArr (repeat RFalse (length ss)), 0%Z))
  /\ (forall r s limit st, fst (preg_replace (One "/a/e") r (One s) limit st) = (RFalse, 0%Z))
  /\ fst (fst (preg_replace (One "/a/e") (One "b") (Many ["xa"]) (-1) init_state)) = RArr [RFalse]
  /\ RArr [RFalse] <> RFalse.
Proof.
  destruct parsePattern_e as [msg Hmsg].
  assert (Hc : forall st, compile "/a/e" false st
                          = (None, setPregError PREG_INTERNAL_ERROR msg st))
    by (intros st; unfold compile; rewrite Hmsg; reflexivity).
  assert (Hall : forall r ss limit st,
            fst (preg_replace (One "/a/e") r (Many ss) limit st) = (RArr (repeat RFalse (length ss)), 0%Z)).
  { intros r ss limit st. unfold preg_replace. simpl as_list.
    assert (G : forall ss st, fst (replace_subjects ["/a/e"] (as_list r) limit ss 0%Z st)
                             = (repeat RFalse (length ss), 0%Z)).
    { induction ss0 as [|s ss0 IH]; intros st0; [reflexivity|].
      cbn [replace_subjects replace_pats]. rewrite Hc. cbn iota beta.
      specialize (IH (setPregError PREG_INTERNAL_ERROR msg st0)).
      destruct (replace_subjects _ _ _ ss0 0%Z _) as [[rest t] st2].
      simpl in IH. injection IH as -> ->. reflexivity. }
    specialize (G ss st).
    destruct (replace_subjects _ _ _ ss 0%Z st) as [[rest t] st2].
    simpl in G. injection G as -> ->. reflexivity. }
  split; [exact Hall|]. split.
  - intros r s limit st. unfold preg_replace. cbn [as_list replace_pats]. rewrite Hc. reflexivity.
  - split; [|discriminate]. rewrite Hall. reflexivity.
Qed.

(** ** preg_split: limits and the number of pieces *)

Section SplitCount.
Variable m : Matcher.
Hypothesis Hwf : matcher_wf m.
Hypothesis Hne : forall s q r, m s q = Some r -> q < m_end r /\ m_caps r = [].

Lemma exec_at_skip (s : string) (q : nat) :
  m s q = None -> q < String.length s -> exec_at m s q = exec_at m s (S q).
Proof.
  intros Hn Hq. unfold exec_at.
  destruct (Nat.ltb_spec (String.length s) q) as [H|_]; [lia|].
  destruct (Nat.ltb_spec (String.length s) (S q)) as [H|_]; [lia|].
  replace (String.length s - q) with (S (String.length s - S q)) by lia.
  simpl. rewrite Hn. reflexivity.
Qed.

Lemma exec_all_fuel_skip (f : nat) (s : string) (q : nat) :
  m s q = None -> q < String.length s -> exec_all_fuel m f s q = exec_all_fuel m f s (S q).
Proof. intros Hn Hq. destruct f; simpl; [reflexivity|]. rewrite exec_at_skip by assumption. reflexivity. Qed.

Lemma split_loop_end (f : nat) (s : string) (p q : nat) :
  String.length s <= q -> split_loop m f s p q = [Some (slice s p (String.length s))].
Proof.
  intros H. destruct f; simpl; [reflexivity|].
  destruct (Nat.ltb_spec q (String.length s)); [lia|reflexivity].
Qed.

Lemma exec_all_fuel_end (f : nat) (s : string) (q : nat) :
  String.length s <= q -> exec_all_fuel m f s q = [].
Proof.
  intros H. destruct f; simpl; [reflexivity|].
  unfold exec_at. destruct (Nat.ltb_spec (String.length s) q) as [Hlt|Hlt]; [reflexivity|].
  replace (String.length s - q) with 0 by lia. simpl.
  destruct (m s q) as [r|] eqn:E; [|reflexivity].
  destruct (Hne _ _ _ E) as [H1 _]. specialize (Hwf _ _ _ E). lia.
Qed.

Lemma split_exec_count (s : string) (n : nat) :
  forall f f' p q, p <= q -> String.length s - q <= n ->
  String.length s - q <= f -> String.length s - q + 1 <= f' ->
  length (split_loop m f s p q) = S (length (exec_all_fuel m f' s q)).
Proof.
  induction n as [|n IH]; intros f f' p q Hpq Hn Hf Hf'.
  all: destruct (Nat.ltb_spec q (String.length s)) as [Hq|Hq].
  2,4: rewrite split_loop_end, exec_all_fuel_end by lia; reflexivity.
  1: lia.
  destruct f as [|f]; [lia|]. simpl.
  destruct (Nat.ltb_spec q (String.length s)) as [_|]; [|lia].
  destruct (m s q) as [r|] eqn:E.
  - destruct (Hne _ _ _ E) as [H1 H2]. pose proof (Hwf _ _ _ E) as H3.
    rewrite (Nat.min_l _ _ (proj2 H3)).
    destruct (Nat.eqb_spec (m_end r) p) as [He|_]; [lia|].
    rewrite H2. simpl.
    destruct f' as [|f']; [lia|]. simpl.
    unfold exec_at at 1. destruct (Nat.ltb_spec (String.length s) q) as [|_]; [lia|].
    replace (String.length s - q) with (S (String.length s - S q)) by lia. simpl. rewrite E.
    destruct (Nat.eqb_spec (m_end r) q) as [He|_]; [lia|]. simpl.
    f_equal. apply IH; lia.
  - rewrite (exec_all_fuel_skip f' s q E Hq). apply IH; lia.
Qed.

Lemma js_split_count (s : string) :
  length (js_split m s) = S (length (exec_all m s)).
Proof.
  unfold js_split, exec_all. destruct (Nat.eqb_spec (String.length s) 0) as [H0|H0].
  - simpl. unfold exec_at. rewrite H0. simpl.
    destruct (m s 0) as [r|] eqn:E; [|reflexivity].
    destruct (Hne _ _ _ E). specialize (Hwf _ _ _ E). lia.
  - apply (split_exec_count s (String.length s)); lia.
Qed.

End SplitCount.

(** C2 (code bug): [preg_split] returns the first [limit] pieces of
    [subject.split(re)] when [limit > 0] (so at most [limit] pieces; the rest
    of the subject is dropped instead of being kept in the last piece) and
    all of them otherwise, whatever [flags] says, capture values included;
    when the regex has no capture group and matches no empty string, the
    unlimited split has exactly one piece more than the count returned by
    [preg_match_all]. *)
Theorem preg_split_limit `{RE : NativeRegExp}
    (pattern subject : string) (limit flags : Z) (st : St) (m : Matcher) :
  fst (compile pattern false st) = Some m ->
  fst (preg_split pattern subject limit flags st)
    = SArr (if Z.ltb 0 limit then firstn (Z.to_nat limit) (js_split m subject) else js_split m subject)
  /\ ((0 < limit)%Z -> exists l, fst (preg_split pattern subject limit flags st) = SArr l
                               /\ length l <= Z.to_nat limit)
  /\ (matcher_wf m ->
      (forall s q r, m s q = Some r -> q < m_end r /\ m_caps r = []) ->
      fst (fst (preg_match_all pattern subject None 0 0 st)) = PInt (Z.of_nat (length (exec_all m subject)))
      /\ ((limit <= 0)%Z -> exists l, fst (preg_split pattern subject limit flags st) = SArr l
                                   /\ length l = S (length (exec_all m subject)))).
Proof.
  intros Hc.
  assert (Hs : fst (preg_split pattern subject limit flags st)
               = SArr (if Z.ltb 0 limit then firstn (Z.to_nat limit) (js_split m subject)
                       else js_split m subject)).
  { unfold preg_split. destruct (compile pattern false st) as [re st1].
    simpl in Hc. subst re. destruct (Z.ltb 0 limit); reflexivity. }
  split; [exact Hs|]. split.
  - intros Hl. eexists. split; [exact Hs|].
    destruct (Z.ltb_spec 0 limit) as [_|]; [|lia]. apply firstn_le_length.
  - intros Hwf Hne. split.
    + unfold preg_match_all. destruct (compile pattern false st) as [re st1].
      simpl in Hc. subst re. simpl. rewrite length_map. reflexivity.
    + intros Hl. eexists. split; [exact Hs|].
      destruct (Z.ltb_spec 0 limit) as [|_]; [lia|]. exact (js_split_count m Hwf Hne subject).
Qed.

Lemma preg_split_limit_witness :
  fst (@compile LiteralEngine "/,/" false init_state) = Some (lit_matcher ",")
  /\ fst (@preg_split LiteralEngine "/,/" "a,b,c" 2 0 init_state) = SArr [Some "a"; Some "b"]
  /\ "a" ++ "," ++ "b" <> "a,b,c"
  /\ fst (@preg_split LiteralEngine "/(,)/" "a,b" (-1) 0 init_state) = SArr [Some "a"; Some ","; Some "b"].
Proof.
  split; [reflexivity|]. split.
  - rewrite (proj1 (@preg_split_limit LiteralEngine "/,/" "a,b,c" 2 0 init_state (lit_matcher ",") eq_refl)).
    reflexivity.
  - split; [discriminate|].
    rewrite (proj1 (@preg_split_limit LiteralEngine "/(,)/" "a,b" (-1) 0 init_state
                      (group_matcher ",") eq_refl)).
    reflexivity.
Defined.

(** * Further properties of preg.js *)

(** ** Substrings *)

Lemma substring_empty (n k : nat) : substring n k "" = "".
Proof. destruct n, k; reflexivity. Qed.

Lemma substring_add (s : string) : forall n k1 k2,
  substring n (k1 + k2) s = substring n k1 s ++ substring (n + k1) k2 s.
Proof.
  induction s as [|c s IH]; intros n k1 k2.
  - destruct n, k1, k2; reflexivity.
  - destruct n as [|n].
    + destruct k1 as [|k1]; [reflexivity|]. simpl. f_equal. apply (IH 0).
    + simpl. apply IH.
Qed.

Lemma slice_app (s : string) (a b c : nat) :
  a <= b -> b <= c -> slice s a b ++ slice s b c = slice s a c.
Proof.
  intros H1 H2. unfold slice.
  replace (c - a) with ((b - a) + (c - b)) by lia. rewrite substring_add.
  f_equal. f_equal. lia.
Qed.

Lemma get_lt (s : string) (q : nat) : q < String.length s -> exists c, get q s = Some c.
Proof.
  revert q. induction s as [|c s IH]; intros [|q] H; simpl in *; try lia; eauto.
  apply IH. lia.
Qed.

Lemma get_ge (s : string) (q : nat) : String.length s <= q -> get q s = None.
Proof.
  revert q. induction s as [|c s IH]; intros [|q] H; simpl in *; try lia; try reflexivity.
  apply IH. lia.
Qed.

Lemma get_some_lt (s : string) (q : nat) (c : ascii) : get q s = Some c -> q < String.length s.
Proof.
  intros H. destruct (Nat.ltb_spec q (String.length s)) as [|Hq]; [assumption|].
  rewrite get_ge in H by exact Hq. discriminate.
Qed.

Lemma slice_one (s : string) (q : nat) (c : ascii) : get q s = Some c -> slice s q (S q) = String c "".
Proof.
  unfold slice. replace (S q - q) with 1 by lia. revert q.
  induction s as [|d s IH]; intros [|q] H; simpl in *; try discriminate.
  - injection H as ->. rewrite substring_zero. reflexivity.
  - apply IH. exact H.
Qed.

Lemma slice_cons (s : string) (q e : nat) (c : ascii) :
  get q s = Some c -> q < e -> slice s q e = String c (slice s (S q) e).
Proof.
  intros H He. rewrite <- (slice_app s q (S q) e) by lia. rewrite (slice_one s q c H). reflexivity.
Qed.

Lemma substring_past (s : string) (a k : nat) : String.length s <= a -> substring a k s = "".
Proof.
  revert a. induction s as [|c s IH]; intros a H; [apply substring_empty|].
  destruct a as [|a]; simpl in *; [lia|]. apply IH. lia.
Qed.

Lemma substring_suffix (s : string) : forall off q k,
  substring q k (substring off (String.length s - off) s) = substring (off + q) k s.
Proof.
  induction s as [|c s IH]; intros off q k.
  - destruct off, q, k; reflexivity.
  - destruct off as [|off].
    + rewrite Nat.sub_0_r, substring_full. reflexivity.
    + simpl. apply IH.
Qed.

Lemma substring_length_min (s : string) : forall a k,
  String.length (substring a k s) = Nat.min k (String.length s - a).
Proof.
  induction s as [|c s IH]; intros a k.
  - rewrite substring_empty. simpl. lia.
  - destruct a as [|a], k as [|k]; simpl; try reflexivity.
    + rewrite IH. lia.
    + rewrite IH. reflexivity.
    + rewrite IH. reflexivity.
Qed.

Lemma substring_min (s : string) : forall a k,
  substring a k s = substring a (Nat.min k (String.length s - a)) s.
Proof.
  induction s as [|c s IH]; intros a k.
  - rewrite !substring_empty. reflexivity.
  - destruct a as [|a], k as [|k]; simpl; try reflexivity.
    + rewrite (IH 0 k). rewrite Nat.sub_0_r. reflexivity.
    + apply IH.
Qed.

Lemma substring_self_length (s : string) (a k : nat) :
  substring a (String.length (substring a k s)) s = substring a k s.
Proof. rewrite substring_length_min. symmetry. apply substring_min. Qed.

(** ** preg_quote *)

Section Escape.
Variable P : ascii -> bool.
Variable m : Matcher.
Variable s : string.
Hypothesis Hm : forall q,
  match m s q with
  | Some r => m_end r = S q /\ exists c, get q s = Some c /\ P c = true
  | None => forall c, get q s = Some c -> P c = false
  end.

Let esc_f := fun (u : unit) (mt : string) => (String bslash mt, u).

Lemma escape_loop (n : nat) : forall li next fuel acc,
  String.length s - li <= n -> next <= li -> li <= String.length s ->
  String.length s - li + 1 <= fuel ->
  replace_build s esc_f (exec_all_fuel m fuel s li) next acc tt
  = (acc ++ slice s next li ++ esc_str P (slice s li (String.length s)), tt).
Proof.
  induction n as [|n IH]; intros li next fuel acc Hn Hnl Hl Hf;
    (destruct fuel as [|fuel]; [lia|]);
    (destruct (Nat.eq_dec li (String.length s)) as [Heq|Hne]).
  1,3: subst li; simpl; unfold exec_at;
       (destruct (Nat.ltb_spec (String.length s) (String.length s)) as [|_]; [lia|]);
       rewrite Nat.sub_diag; simpl;
       (pose proof (Hm (String.length s)) as H;
        destruct (m s (String.length s)) as [r|];
        [destruct H as [_ [c [Hc _]]]; rewrite get_ge in Hc by lia; discriminate|]);
       cbn [replace_build]; rewrite replace_tail;
       rewrite (slice_empty s (String.length s) (String.length s)) by lia;
       cbn [esc_str]; rewrite str_app_nil_r; reflexivity.
  1: lia.
  destruct (get_lt s li) as [c Hc]; [lia|].
  pose proof (Hm li) as H. simpl. unfold exec_at at 1.
  destruct (Nat.ltb_spec (String.length s) li) as [|_]; [lia|].
  replace (String.length s - li) with (S (String.length s - S li)) at 1 by lia.
  simpl. destruct (m s li) as [r|] eqn:E.
  - destruct H as [He [c' [Hc' HP]]]. rewrite Hc in Hc'. injection Hc' as <-.
    destruct (Nat.eqb_spec (m_end r) li) as [|_]; [lia|].
    simpl. rewrite He, (slice_one s li c Hc).
    destruct (Nat.leb_spec next li) as [_|]; [|lia].
    rewrite IH by lia. rewrite (slice_empty s (S li) (S li)) by lia.
    rewrite (slice_cons s li (String.length s) c Hc) by lia. simpl. rewrite HP.
    rewrite !str_app_assoc. reflexivity.
  - assert (HP : P c = false) by exact (H c Hc).
    assert (Hskip : exec_all_fuel m (S fuel) s li = exec_all_fuel m (S fuel) s (S li)).
    { simpl. unfold exec_at.
      destruct (Nat.ltb_spec (String.length s) li) as [|_]; [lia|].
      destruct (Nat.ltb_spec (String.length s) (S li)) as [|_]; [lia|].
      replace (String.length s - li) with (S (String.length s - S li)) by lia.
      simpl. rewrite E. reflexivity. }
    simpl in Hskip. unfold exec_at in Hskip at 1.
    destruct (Nat.ltb_spec (String.length s) li) as [|_]; [lia|].
    replace (String.length s - li) with (S (String.length s - S li)) in Hskip by lia.
    simpl in Hskip. rewrite E in Hskip. rewrite Hskip.
    change (match exec_at m s (S li) with
            | Some (q, r) => (q, r) :: exec_all_fuel m fuel s (if Nat.eqb (m_end r) q then S (m_end r) else m_end r)
            | None => [] end) with (exec_all_fuel m (S fuel) s (S li)).
    rewrite IH by lia.
    rewrite <- (slice_app s next li (S li)) by lia. rewrite (slice_one s li c Hc).
    rewrite (slice_cons s li (String.length s) c Hc) by lia. simpl. rewrite HP.
    rewrite !str_app_assoc. reflexivity.
Qed.

Lemma escape_all :
  fst (js_replace_global m s esc_f tt) = esc_str P s.
Proof.
  unfold js_replace_global, exec_all.
  rewrite (escape_loop (String.length s)) by lia. rewrite (slice_empty s 0 0) by lia.
  unfold slice. rewrite Nat.sub_0_r, substring_full. reflexivity.
Qed.

End Escape.

Lemma meta_class_char (s : string) (q : nat) :
  match meta_class s q with
  | Some r => m_end r = S q /\ exists c, get q s = Some c /\ char_in c quote_meta = true
  | None => forall c, get q s = Some c -> char_in c quote_meta = false
  end.
Proof.
  unfold meta_class. destruct (get q s) as [c|] eqn:E.
  - destruct (char_in c quote_meta) eqn:Ec.
    + split; [reflexivity|]. exists c. split; [reflexivity|exact Ec].
    + intros c' H. injection H as <-. exact Ec.
  - intros c H. discriminate.
Qed.

Lemma prefix_nil (t : string) : prefix "" t = true.
Proof. destruct t; reflexivity. Qed.

Lemma lit_matcher_char (d : ascii) (s : string) (q : nat) :
  match lit_matcher (String d "") s q with
  | Some r => m_end r = S q /\ exists c, get q s = Some c /\ Ascii.eqb c d = true
  | None => forall c, get q s = Some c -> Ascii.eqb c d = false
  end.
Proof.
  unfold lit_matcher, starts_at.
  destruct (Nat.ltb_spec q (String.length s)) as [Hq|Hq].
  - destruct (get_lt s q Hq) as [c Hc].
    change (substring q (String.length s - q) s) with (slice s q (String.length s)).
    rewrite (slice_cons s q (String.length s) c Hc Hq).
    destruct (Nat.leb_spec q (String.length s)) as [_|]; [|lia].
    simpl. destruct (ascii_dec d c) as [<-|Hdc]; simpl.
    + rewrite prefix_nil. split; [simpl; lia|]. exists d. split; [exact Hc|apply Ascii.eqb_refl].
    + intros c' Hc'. rewrite Hc in Hc'. injection Hc' as <-.
      apply Ascii.eqb_neq. congruence.
  - replace (String.length s - q) with 0 by lia. rewrite substring_zero.
    rewrite andb_false_r. intros c Hc. apply get_some_lt in Hc. lia.
Qed.

Lemma escape_meta_esc (str : string) :
  escape_meta str = esc_str (fun c => char_in c quote_meta) str.
Proof.
  unfold escape_meta.
  exact (escape_all (fun c => char_in c quote_meta) meta_class str (meta_class_char str)).
Qed.

Lemma esc_str_compose (P Q : ascii -> bool) (s : string) :
  Q bslash = false -> (forall c, P c = true -> Q c = false) ->
  esc_str Q (esc_str P s) = esc_str (fun c => P c || Q c) s.
Proof.
  intros Hb HPQ. induction s as [|c s IH]; [reflexivity|]. simpl.
  destruct (P c) eqn:Ep; simpl.
  - rewrite Hb, (HPQ c Ep), IH. reflexivity.
  - destruct (Q c); rewrite IH; reflexivity.
Qed.

Lemma lit_matcher_empty (s : string) (q : nat) :
  q <= String.length s -> lit_matcher "" s q = Some {| m_end := q; m_caps := []; m_groups := None |}.
Proof.
  intros H. unfold lit_matcher, starts_at. rewrite prefix_nil.
  destruct (Nat.leb_spec q (String.length s)); [|lia]. simpl. rewrite Nat.add_0_r. reflexivity.
Qed.

Lemma empty_loop (s : string) (n : nat) : forall li next fuel acc,
  String.length s - li <= n -> next <= li -> li <= String.length s ->
  String.length s - li + 1 <= fuel ->
  replace_build s (fun (u : unit) mt => (String bslash mt, u)) (exec_all_fuel (lit_matcher "") fuel s li)
    next acc tt
  = (acc ++ slice s next li ++ bs_every (slice s li (String.length s)), tt).
Proof.
  induction n as [|n IH]; intros li next fuel acc Hn Hnl Hl Hf;
    (destruct fuel as [|fuel]; [lia|]);
    (assert (Hx : exec_all_fuel (lit_matcher "") (S fuel) s li
                  = (li, {| m_end := li; m_caps := []; m_groups := None |})
                    :: exec_all_fuel (lit_matcher "") fuel s (S li))
       by (simpl; unfold exec_at; destruct (Nat.ltb_spec (String.length s) li); [lia|];
           destruct (String.length s - li); simpl; rewrite lit_matcher_empty by lia;
           simpl; rewrite Nat.eqb_refl; reflexivity));
    rewrite Hx; cbn [replace_build m_end];
    rewrite (slice_empty s li li) by lia;
    (destruct (Nat.leb_spec next li) as [_|]; [|lia]);
    (destruct (Nat.eq_dec li (String.length s)) as [Heq|Hne]).
  1,3: subst li;
       (assert (Hz : exec_all_fuel (lit_matcher "") fuel s (S (String.length s)) = [])
          by (destruct fuel; simpl; [reflexivity|]; unfold exec_at;
              destruct (Nat.ltb_spec (String.length s) (S (String.length s))); [reflexivity|lia]));
       rewrite Hz; cbn [replace_build];
       (destruct (Nat.leb_spec (String.length s) (String.length s)) as [_|]; [|lia]);
       rewrite (slice_empty s (String.length s) (String.length s)) by lia;
       reflexivity.
  1: lia.
  destruct (get_lt s li) as [c Hc]; [lia|].
  rewrite IH by lia. rewrite (slice_one s li c Hc).
  rewrite (slice_cons s li (String.length s) c Hc) by lia.
  rewrite !str_app_assoc. reflexivity.
Qed.

(** The first replace of [preg_quote] (the class of [\ ^ $ . * + ? ( ) [ ] { } |]
    with the template [\$&]) puts one backslash before every metacharacter and
    leaves every other character as it is. *)
Theorem escape_meta_exact (str : string) :
  escape_meta str = esc_str (fun c => char_in c quote_meta) str.
Proof. apply escape_meta_esc. Qed.

(** [preg_quote(str, d)] with a one-character delimiter [d] that is no
    metacharacter: [new RegExp(d, "g")] matches each [d], so the result puts
    a backslash before every metacharacter and every [d], and nothing else. *)
Theorem preg_quote_plain_delimiter `{RE : NativeRegExp} (d : ascii) :
  char_in d quote_meta = false ->
  native_RegExp (String d "") "g" = inr (lit_matcher (String d "")) ->
  forall str, preg_quote str (Some (String d ""))
              = Some (esc_str (fun c => char_in c quote_meta || Ascii.eqb c d) str).
Proof.
  intros Hd He str.
  assert (Hdel : escape_meta (String d "") = String d "")
    by (rewrite escape_meta_esc; simpl; rewrite Hd; reflexivity).
  unfold preg_quote. cbv beta iota zeta. simpl String.eqb. rewrite Hdel, He. f_equal.
  rewrite (escape_all (fun c => Ascii.eqb c d) (lit_matcher (String d "")) (escape_meta str)
             (lit_matcher_char d (escape_meta str))).
  rewrite escape_meta_esc. apply esc_str_compose.
  - destruct (Ascii.eqb_spec bslash d) as [<-|]; [discriminate|reflexivity].
  - intros c Hc. destruct (Ascii.eqb_spec c d) as [->|]; [congruence|reflexivity].
Qed.

Lemma preg_quote_plain_delimiter_witness :
  char_in "/" quote_meta = false
  /\ @native_RegExp LiteralEngine "/" "g" = inr (lit_matcher "/")
  /\ @preg_quote LiteralEngine "a/b.c" (Some "/")
     = Some (esc_str (fun c => char_in c quote_meta || Ascii.eqb c "/") "a/b.c").
Proof.
  split; [reflexivity|]. split; [reflexivity|].
  apply (@preg_quote_plain_delimiter LiteralEngine "/"); reflexivity.
Defined.

(** [preg_quote(str)] and [preg_quote(str, "")]: the delimiter regex is
    [new RegExp("", "g")], which matches the empty string at each of the
    [n + 1] positions of the escaped text, so a backslash is put at every
    position, the end included. *)
Theorem preg_quote_empty_delimiter `{RE : NativeRegExp} :
  native_RegExp "" "g" = inr (lit_matcher "") ->
  forall str,
    preg_quote str None = Some (bs_every (esc_str (fun c => char_in c quote_meta) str))
    /\ preg_quote str (Some "") = preg_quote str None.
Proof.
  intros He str. split; [|reflexivity].
  unfold preg_quote. cbv beta iota zeta. rewrite He. f_equal.
  unfold js_replace_global, exec_all.
  rewrite (empty_loop (escape_meta str) (String.length (escape_meta str))) by lia.
  rewrite (slice_empty _ 0 0) by lia. unfold slice.
  rewrite Nat.sub_0_r, substring_full, escape_meta_esc. reflexivity.
Qed.

Lemma preg_quote_empty_delimiter_witness :
  @native_RegExp LiteralEngine "" "g" = inr (lit_matcher "")
  /\ @preg_quote LiteralEngine "a.b" None = Some (bs_every (esc_str (fun c => char_in c quote_meta) "a.b")).
Proof.
  split; [reflexivity|].
  apply (proj1 (@preg_quote_empty_delimiter LiteralEngine eq_refl "a.b")).
Defined.

(** ** preg_grep *)

Lemma compile_none_error `{RE : NativeRegExp} (p : string) (b : bool) (st : St) :
  fst (compile p b st) = None -> last_error (snd (compile p b st)) = PREG_INTERNAL_ERROR.
Proof.
  unfold compile. destruct (parsePattern p); simpl; [reflexivity|].
  destruct (native_RegExp _ _); simpl; [reflexivity|discriminate].
Qed.

Lemma filter_ext_l {A : Type} (f g : A -> bool) (l : list A) :
  (forall x, f x = g x) -> filter f l = filter g l.
Proof. intros H. induction l as [|x l IH]; simpl; [reflexivity|]. rewrite H, IH. reflexivity. Qed.

Lemma filter_neg_length {A : Type} (f : A -> bool) (l : list A) :
  length (filter f l) + length (filter (fun x => negb (f x)) l) = length l.
Proof. induction l as [|x l IH]; simpl; [reflexivity|]. destruct (f x); simpl; lia. Qed.

(** preg_grep: a pattern that does not compile gives [false] and error code
    1; otherwise the plain call and the [PREG_GREP_INVERT] call (bit 0 of
    [flags], the only bit read) split the input: every entry is kept by
    exactly one of them, both keep entries of the input only, and their
    lengths add up to the input's. *)
Theorem preg_grep_partition `{RE : NativeRegExp}
    (pattern : string) (input : list string) (flags : Z) (st : St) :
  (fst (compile pattern true st) = None ->
     fst (preg_grep pattern input flags st) = None
     /\ last_error (snd (preg_grep pattern input flags st)) = PREG_INTERNAL_ERROR)
  /\ (forall m, fst (compile pattern true st) = Some m ->
      exists l0 l1,
        fst (preg_grep pattern input 0 st) = Some l0
        /\ fst (preg_grep pattern input 1 st) = Some l1
        /\ fst (preg_grep pattern input flags st) = (if Z.eqb (Z.land flags 1) 1 then Some l1 else Some l0)
        /\ length l0 + length l1 = length input
        /\ (forall v, In v input -> (In v l0 <-> ~ In v l1))
        /\ incl l0 input /\ incl l1 input).
Proof.
  split.
  - intros Hn. pose proof (compile_none_error pattern true st Hn) as He.
    unfold preg_grep. destruct (compile pattern true st) as [re st1].
    simpl in Hn, He. subst re. split; [reflexivity|exact He].
  - intros m Hm.
    set (ok := fun v => match exec_at m v 0 with Some _ => true | None => false end).
    exists (filter ok input), (filter (fun v => negb (ok v)) input).
    unfold preg_grep. destruct (compile pattern true st) as [re st1].
    simpl in Hm. subst re. simpl.
    split; [f_equal; apply filter_ext_l; intros v; unfold ok; destruct (exec_at m v 0); reflexivity|].
    split; [f_equal; apply filter_ext_l; intros v; unfold ok; destruct (exec_at m v 0); reflexivity|].
    split.
    { destruct (Z.eqb (Z.land flags 1) 1); f_equal; apply filter_ext_l; intros v;
        unfold ok; destruct (exec_at m v 0); reflexivity. }
    split; [apply filter_neg_length|].
    split; [|split].
    + intros v Hv. rewrite !filter_In. destruct (ok v); simpl; intuition congruence.
    + intros v Hv. apply filter_In in Hv. exact (proj1 Hv).
    + intros v Hv. apply filter_In in Hv. exact (proj1 Hv).
Qed.

Lemma preg_grep_partition_witness :
  fst (@compile LiteralEngine "/a/" true init_state) = Some (lit_matcher "a")
  /\ fst (@preg_grep LiteralEngine "/a/" ["xa"; "b"; "a"] 1 init_state) = Some ["b"].
Proof.
  split; [reflexivity|].
  destruct (proj2 (@preg_grep_partition LiteralEngine "/a/" ["xa"; "b"; "a"] 1 init_state)
             (lit_matcher "a") eq_refl) as (l0 & l1 & H0 & H1 & _).
  rewrite H1. vm_compute in H1. exact (eq_sym H1).
Defined.

(** ** stripExtended *)

Lemma strip_loop_plain (s : string) : forall ic e,
  (forall c, In c (list_ascii_of_string s) -> is_js_space c = false /\ c <> "#"%char) ->
  strip_loop ic e s = s.
Proof.
  induction s as [|ch s IH]; intros ic e H; [reflexivity|].
  assert (Hs : forall c, In c (list_ascii_of_string s) -> is_js_space c = false /\ c <> "#"%char)
    by (intros c Hc; apply H; right; exact Hc).
  destruct (H ch (or_introl eq_refl)) as [Hsp Hh].
  simpl. destruct e; [rewrite IH by exact Hs; reflexivity|].
  destruct (Ascii.eqb ch bslash); [rewrite IH by exact Hs; reflexivity|].
  destruct (Ascii.eqb ch "[" && negb ic)%bool; [rewrite IH by exact Hs; reflexivity|].
  destruct (Ascii.eqb ch "]" && ic)%bool; [rewrite IH by exact Hs; reflexivity|].
  destruct (Ascii.eqb_spec ch "#") as [|_]; [contradiction|].
  rewrite andb_false_r, Hsp, andb_false_r, IH by exact Hs. reflexivity.
Qed.

(** The [x] modifier changes nothing in a body without whitespace and without
    [#]: [stripExtended] gives it back unchanged. *)
Theorem stripExtended_plain (s : string) :
  (forall c, In c (list_ascii_of_string s) -> is_js_space c = false /\ c <> "#"%char) ->
  stripExtended s = s.
Proof. apply strip_loop_plain. Qed.

Lemma stripExtended_plain_witness :
  (forall c, In c (list_ascii_of_string "a\d+[x]") -> is_js_space c = false /\ c <> "#"%char)
  /\ stripExtended "a\d+[x]" = "a\d+[x]".
Proof.
  assert (H : forall c, In c (list_ascii_of_string "a\d+[x]") -> is_js_space c = false /\ c <> "#"%char).
  { intros c Hc. simpl in Hc.
    repeat (destruct Hc as [<-|Hc]; [split; [reflexivity|discriminate]|]). destruct Hc. }
  split; [exact H|]. exact (stripExtended_plain "a\d+[x]" H).
Defined.

(** ** The occurrences found by the global loop *)

Lemma exec_all_fuel_in (m : Matcher) (s : string) (fuel : nat) : forall li q r,
  In (q, r) (exec_all_fuel m fuel s li) -> m s q = Some r.
Proof.
  induction fuel as [|f IH]; intros li q r H; simpl in H; [destruct H|].
  destruct (exec_at m s li) as [[q' r']|] eqn:E; [|destruct H].
  destruct H as [H|H].
  - injection H as <- <-. exact (proj2 (exec_at_spec m s li q' r' E)).
  - exact (IH _ q r H).
Qed.

Lemma exec_all_bounds (m : Matcher) (s : string) :
  matcher_wf m -> forall q r, In (q, r) (exec_all m s) -> q <= m_end r <= String.length s.
Proof. intros Hwf q r H. exact (Hwf _ _ _ (exec_all_fuel_in m s _ 0 q r H)). Qed.

Lemma spec_pieces_zero (s r : string) (ms : list (nat * MatchRes)) : forall next,
  ordered_from next ms -> (forall q res, In (q, res) ms -> q <= m_end res <= String.length s) ->
  next <= String.length s ->
  spec_pieces s r 0 ms next = slice s next (String.length s).
Proof.
  induction ms as [|[q res] ms IH]; intros next Ho Hb Hn; [reflexivity|].
  destruct Ho as [Hq Ho]. pose proof (Hb q res (or_introl eq_refl)) as Hqr. simpl.
  rewrite IH; [| exact Ho | intros q' r' H; apply Hb; right; exact H | lia].
  rewrite (slice_app s q (m_end res)), (slice_app s next q) by lia. reflexivity.
Qed.

Section LimitZero.
Context `{RE : NativeRegExp}.
Hypothesis Hwf : forall src fl m, native_RegExp src fl = inr m -> matcher_wf m.

Lemma replace_pats_zero (pats : list string) :
  Forall compiles pats ->
  forall i reps out total st, fst (replace_pats pats i reps 0 out total st) = (Some out, total).
Proof.
  induction 1 as [|p ps Hp Hps IH]; intros i reps out total st; [reflexivity|].
  unfold compiles in Hp. simpl.
  destruct (fst (compile p false init_state)) as [m|] eqn:Em; [|congruence].
  assert (Em' : fst (compile p false st) = Some m)
    by (rewrite (compile_fst_state_indep p false st init_state); exact Em).
  pose proof (compile_wf Hwf p false init_state m Em) as Hm.
  destruct (compile p false st) as [re st1]. simpl in Em'. subst re.
  rewrite (replace_with_limit_spec m _ 0 out Hm). simpl.
  rewrite spec_pieces_zero.
  - unfold slice. rewrite Nat.sub_0_r, substring_full, Z.add_0_r. apply IH.
  - exact (exec_all_fuel_ordered m out _ 0 Hm).
  - exact (exec_all_bounds m out Hm).
  - lia.
Qed.

End LimitZero.

(** [preg_replace] with [limit = 0] and patterns that all compile gives every
    subject back unchanged and counts no substitution. *)
Theorem preg_replace_limit_zero `{RE : NativeRegExp}
    (Hwf : forall src fl m, native_RegExp src fl = inr m -> matcher_wf m)
    (pattern replacement : strs) :
  Forall compiles (as_list pattern) ->
  (forall s st, fst (preg_replace pattern replacement (One s) 0 st) = (RStr s, 0%Z))
  /\ (forall ss st, fst (preg_replace pattern replacement (Many ss) 0 st) = (RArr (map RStr ss), 0%Z)).
Proof.
  intros Hc. split.
  - intros s st. unfold preg_replace.
    pose proof (replace_pats_zero Hwf _ Hc 0 (as_list replacement) s 0%Z st) as H.
    destruct (replace_pats _ _ _ _ _ _ _) as [[res t] st1]. simpl in H. injection H as -> ->.
    reflexivity.
  - intros ss st. unfold preg_replace.
    assert (G : forall ss total st, fst (replace_subjects (as_list pattern) (as_list replacement) 0 ss total st)
                                   = (map RStr ss, total)).
    { induction ss0 as [|s ss0 IH]; intros total st0; [reflexivity|]. simpl.
      pose proof (replace_pats_zero Hwf _ Hc 0 (as_list replacement) s total st0) as H.
      destruct (replace_pats _ _ _ _ _ _ _) as [[res t] st1]. simpl in H. injection H as -> ->.
      specialize (IH total st1).
      destruct (replace_subjects _ _ _ ss0 total st1) as [[rest t2] st2]. simpl in IH.
      injection IH as -> ->. reflexivity. }
    specialize (G ss 0%Z st).
    destruct (replace_subjects _ _ _ ss 0%Z st) as [[rest t] st1]. simpl in G.
    injection G as -> ->. reflexivity.
Qed.

Lemma preg_replace_limit_zero_witness :
  (forall src fl m, @native_RegExp LiteralEngine src fl = inr m -> matcher_wf m)
  /\ Forall (@compiles LiteralEngine) ["/a/"; "/n/"]
  /\ fst (@preg_replace LiteralEngine (Many ["/a/"; "/n/"]) (One "x") (Many ["banana"; "an"]) 0 init_state)
     = (RArr [RStr "banana"; RStr "an"], 0%Z).
Proof.
  assert (Hc : Forall (@compiles LiteralEngine) ["/a/"; "/n/"])
    by (repeat constructor; unfold compiles; vm_compute; discriminate).
  split; [exact LiteralEngine_wf|]. split; [exact Hc|].
  apply (proj2 (@preg_replace_limit_zero LiteralEngine LiteralEngine_wf (Many ["/a/"; "/n/"]) (One "x") Hc)).
Defined.

(** ** preg_split: the pieces *)

Section SplitGaps.
Variable m : Matcher.
Hypothesis Hwf : matcher_wf m.
Hypothesis Hne : forall s q r, m s q = Some r -> q < m_end r /\ m_caps r = [].

Lemma split_gaps (s : string) (n : nat) :
  forall f f' p q, p <= q -> String.length s - q <= n ->
  String.length s - q <= f -> String.length s - q + 1 <= f' ->
  split_loop m f s p q = map Some (gaps s p (exec_all_fuel m f' s q)).
Proof.
  induction n as [|n IH]; intros f f' p q Hpq Hn Hf Hf'.
  all: destruct (Nat.ltb_spec q (String.length s)) as [Hq|Hq].
  2,4: rewrite split_loop_end, (exec_all_fuel_end m Hwf Hne) by lia; reflexivity.
  1: lia.
  destruct f as [|f]; [lia|]. simpl.
  destruct (Nat.ltb_spec q (String.length s)) as [_|]; [|lia].
  destruct (m s q) as [r|] eqn:E.
  - destruct (Hne _ _ _ E) as [H1 H2]. pose proof (Hwf _ _ _ E) as H3.
    rewrite (Nat.min_l _ _ (proj2 H3)).
    destruct (Nat.eqb_spec (m_end r) p) as [He|_]; [lia|].
    rewrite H2. simpl.
    destruct f' as [|f']; [lia|]. simpl.
    unfold exec_at at 1. destruct (Nat.ltb_spec (String.length s) q) as [|_]; [lia|].
    replace (String.length s - q) with (S (String.length s - S q)) by lia. simpl. rewrite E.
    destruct (Nat.eqb_spec (m_end r) q) as [He|_]; [lia|]. simpl.
    f_equal. apply IH; lia.
  - rewrite (exec_all_fuel_skip m f' s q E Hq). apply IH; lia.
Qed.

Lemma js_split_gaps (s : string) : js_split m s = map Some (gaps s 0 (exec_all m s)).
Proof.
  unfold js_split, exec_all. destruct (Nat.eqb_spec (String.length s) 0) as [H0|H0].
  - destruct s; [|discriminate]. simpl. unfold exec_at. simpl.
    destruct (m "" 0) as [r|] eqn:E; [|reflexivity].
    destruct (Hne _ _ _ E). specialize (Hwf _ _ _ E). simpl in Hwf. lia.
  - apply (split_gaps s (String.length s)); lia.
Qed.

End SplitGaps.

Lemma weave_gaps (s : string) (ms : list (nat * MatchRes)) : forall next,
  ordered_from next ms -> (forall q r, In (q, r) ms -> q <= m_end r <= String.length s) ->
  next <= String.length s ->
  weave (gaps s next ms) (map (fun qr => slice s (fst qr) (m_end (snd qr))) ms)
  = slice s next (String.length s).
Proof.
  induction ms as [|[q r] ms IH]; intros next Ho Hb Hn; [reflexivity|].
  destruct Ho as [Hq Ho]. pose proof (Hb q r (or_introl eq_refl)) as Hqr.
  simpl. rewrite IH; [| exact Ho | intros q' r' H; apply Hb; right; exact H | lia].
  rewrite (slice_app s q (m_end r)), (slice_app s next q) by lia. reflexivity.
Qed.

(** [preg_split] without a limit, for a regex with no capture group that
    matches no empty string: the pieces are the texts between the occurrences
    that the global [exec] loop finds, and putting those occurrences back
    between the pieces gives the subject. *)
Theorem preg_split_pieces `{RE : NativeRegExp}
    (pattern subject : string) (limit flags : Z) (st : St) (m : Matcher) :
  fst (compile pattern false st) = Some m ->
  matcher_wf m ->
  (forall s q r, m s q = Some r -> q < m_end r /\ m_caps r = []) ->
  (limit <= 0)%Z ->
  exists pieces,
    fst (preg_split pattern subject limit flags st) = SArr (map Some pieces)
    /\ pieces = gaps subject 0 (exec_all m subject)
    /\ weave pieces (map (fun qr => slice subject (fst qr) (m_end (snd qr))) (exec_all m subject))
       = subject.
Proof.
  intros Hc Hwf Hne Hl. exists (gaps subject 0 (exec_all m subject)). split; [|split; [reflexivity|]].
  - unfold preg_split. destruct (compile pattern false st) as [re st1].
    simpl in Hc. subst re. destruct (Z.ltb_spec 0 limit); [lia|].
    rewrite (js_split_gaps m Hwf Hne). reflexivity.
  - rewrite weave_gaps.
    + unfold slice. rewrite Nat.sub_0_r. apply substring_full.
    + exact (exec_all_fuel_ordered m subject _ 0 Hwf).
    + exact (exec_all_bounds m subject Hwf).
    + lia.
Qed.

Lemma preg_split_pieces_witness :
  fst (@compile LiteralEngine "/, /" false init_state) = Some (lit_matcher ", ")
  /\ matcher_wf (lit_matcher ", ")
  /\ (forall s q r, lit_matcher ", " s q = Some r -> q < m_end r /\ m_caps r = [])
  /\ (-1 <= 0)%Z
  /\ exists pieces,
       fst (@preg_split LiteralEngine "/, /" "a, b, c" (-1) 0 init_state) = SArr (map Some pieces)
       /\ pieces = gaps "a, b, c" 0 (exec_all (lit_matcher ", ") "a, b, c")
       /\ weave pieces (map (fun qr => slice "a, b, c" (fst qr) (m_end (snd qr)))
                          (exec_all (lit_matcher ", ") "a, b, c")) = "a, b, c".
Proof.
  assert (Hne : forall s q r, lit_matcher ", " s q = Some r -> q < m_end r /\ m_caps r = []).
  { intros s q r. unfold lit_matcher. destruct (_ && _)%bool; [|discriminate].
    intros H. injection H as <-. simpl. split; [lia|reflexivity]. }
  split; [reflexivity|]. split; [apply lit_matcher_wf|]. split; [exact Hne|]. split; [lia|].
  apply (@preg_split_pieces LiteralEngine "/, /" "a, b, c" (-1) 0 init_state (lit_matcher ", "));
    [reflexivity | apply lit_matcher_wf | exact Hne | lia].
Defined.

(** ** What a successful preg_match writes *)

Lemma filter_named_get (o : obj) (k : key) :
  obj_get (filter (fun kv => negb (is_index (fst kv))) o) k
  = if is_index k then None else obj_get o k.
Proof.
  induction o as [|[k' v] o IH]; simpl; [destruct (is_index k); reflexivity|].
  destruct (is_index k') eqn:Ek'; simpl.
  - rewrite IH. destruct (is_index k) eqn:Ek; [reflexivity|].
    destruct (key_eqb k k') eqn:Ee; [|reflexivity].
    apply key_eqb_spec in Ee. subst k'. congruence.
  - destruct (key_eqb k k') eqn:Ee.
    + apply key_eqb_spec in Ee. subst k'. rewrite Ek'. reflexivity.
    + exact IH.
Qed.

Lemma write_container_get_full (c : container) (out : obj) (k : key) :
  NoDup (map fst out) ->
  obj_get (c_props (write_container c out)) k
  = match obj_get out k with
    | Some v => Some v
    | None => if c_is_array c && negb (is_index k) then obj_get (c_props c) k else None
    end.
Proof.
  intros Hd. unfold write_container. destruct (c_is_array c); simpl;
    rewrite obj_get_assign by exact Hd; destruct (obj_get out k); [reflexivity| |reflexivity|reflexivity].
  rewrite filter_named_get. destruct (is_index k); reflexivity.
Qed.

Lemma preg_match_written `{RE : NativeRegExp}
    (pattern subject : string) (c : container) (flags offset : Z) (st : St) (m : Matcher) (q : nat) (r : MatchRes) :
  fst (compile pattern true st) = Some m ->
  exec_at m (subject_from subject offset) 0 = Some (q, r) ->
  snd (fst (preg_match pattern subject (Some c) flags offset st))
  = Some (write_container c (build_row flags (subject_from subject offset) q r offset)).
Proof.
  intros Hc Hx. unfold preg_match. destruct (compile pattern true st) as [re st1].
  simpl in Hc. subst re. rewrite Hx. reflexivity.
Qed.

(** After [preg_match] answers [1] with a container: each key of the result
    row holds the row's value; an array keeps its other named (non-index)
    properties, since [matches.length = 0] removes only its index entries; a
    plain object keeps nothing else. *)
Theorem preg_match_container `{RE : NativeRegExp}
    (pattern subject : string) (c : container) (flags offset : Z) (st : St) (m : Matcher) (q : nat) (r : MatchRes) :
  fst (compile pattern true st) = Some m ->
  exec_at m (subject_from subject offset) 0 = Some (q, r) ->
  exists c',
    snd (fst (preg_match pattern subject (Some c) flags offset st)) = Some c'
    /\ c_is_array c' = c_is_array c
    /\ forall k, obj_get (c_props c') k
                 = match obj_get (build_row flags (subject_from subject offset) q r offset) k with
                   | Some v => Some v
                   | None => if c_is_array c && negb (is_index k) then obj_get (c_props c) k else None
                   end.
Proof.
  intros Hc Hx. rewrite (preg_match_written pattern subject c flags offset st m q r Hc Hx).
  eexists. split; [reflexivity|]. split.
  - unfold write_container. destruct (c_is_array c); reflexivity.
  - intros k. apply write_container_get_full, build_row_nodup.
Qed.

Lemma preg_match_container_witness :
  fst (@compile LiteralEngine "/b/" true init_state) = Some (lit_matcher "b")
  /\ exec_at (lit_matcher "b") (subject_from "abc" 0) 0
     = Some (1, {| m_end := 2; m_caps := []; m_groups := None |})
  /\ exists c',
       snd (fst (@preg_match LiteralEngine "/b/" "abc"
                   (Some {| c_is_array := true; c_props := [(KIdx 3, JNum 9); (KName "tag", JNum 7)] |})
                   0 0 init_state)) = Some c'
       /\ c_is_array c' = true
       /\ obj_get (c_props c') (KName "tag") = Some (JNum 7)
       /\ obj_get (c_props c') (KIdx 3) = None.
Proof.
  split; [reflexivity|]. split; [reflexivity|].
  destruct (@preg_match_container LiteralEngine "/b/" "abc"
              {| c_is_array := true; c_props := [(KIdx 3, JNum 9); (KName "tag", JNum 7)] |}
              0 0 init_state (lit_matcher "b") 1 {| m_end := 2; m_caps := []; m_groups := None |}
              eq_refl eq_refl) as (c' & H1 & H2 & H3).
  exists c'. split; [exact H1|]. split; [exact H2|].
  split; [rewrite H3; reflexivity | rewrite H3; reflexivity].
Defined.

(** ** The result row *)

Lemma caps_offsets_get_lt (m0 : string) (base : Z) (caps : list (option string)) :
  forall i cursor u out k, k < i ->
  obj_get (caps_offsets m0 base i cursor caps u out) (KIdx k) = obj_get out (KIdx k).
Proof.
  induction caps as [|[g|] caps IH]; intros i cursor u out k Hk; simpl; [reflexivity| |];
    rewrite IH by lia; rewrite obj_get_set; simpl;
    destruct (Nat.eqb_spec k i); [lia|reflexivity|lia|reflexivity].
Qed.

Lemma groups_offsets_get_idx (m0 : string) (base : Z) (gs : list (string * option string)) (u : bool) :
  forall out k, obj_get (groups_offsets m0 base gs u out) (KIdx k) = obj_get out (KIdx k).
Proof.
  unfold groups_offsets. induction gs as [|[nm v] gs IH]; intros out k; simpl; [reflexivity|].
  rewrite IH. destruct v; rewrite obj_get_set; reflexivity.
Qed.

Lemma caps_values_get_lt (caps : list (option string)) :
  forall i u out k, k < i -> obj_get (caps_values i caps u out) (KIdx k) = obj_get out (KIdx k).
Proof.
  induction caps as [|cp caps IH]; intros i u out k Hk; simpl; [reflexivity|].
  rewrite IH by lia. rewrite obj_get_set. simpl. destruct (Nat.eqb_spec k i); [lia|reflexivity].
Qed.

Lemma caps_values_get (caps : list (option string)) :
  forall i j u out,
  obj_get (caps_values i caps u out) (KIdx (i + j))
  = match nth_error caps j with
    | Some cp => Some (match cp with Some g => JStr g | None => unmatched u end)
    | None => obj_get out (KIdx (i + j))
    end.
Proof.
  induction caps as [|cp caps IH]; intros i [|j] u out; simpl.
  - reflexivity.
  - reflexivity.
  - rewrite caps_values_get_lt by lia. rewrite obj_get_set. simpl.
    rewrite Nat.add_0_r, Nat.eqb_refl. reflexivity.
  - replace (i + S j) with (S i + j) by lia. rewrite IH.
    destruct (nth_error caps j); [reflexivity|].
    rewrite obj_get_set. cbn [key_eqb]. destruct (Nat.eqb_spec (S i + j) i); [lia|reflexivity].
Qed.

Lemma values_groups_get_idx (gs : list (string * option string)) (u : bool) :
  forall out k,
  obj_get (fold_left (fun o kv =>
             obj_set o (KName (fst kv)) (match snd kv with Some v => JStr v | None => unmatched u end))
           gs out) (KIdx k) = obj_get out (KIdx k).
Proof.
  induction gs as [|kv gs IH]; intros out k; simpl; [reflexivity|].
  rewrite IH, obj_get_set. reflexivity.
Qed.

Lemma build_row_values_get (flags : Z) (s : string) (q : nat) (r : MatchRes) (offset : Z) :
  Z.land flags PREG_OFFSET_CAPTURE = 0%Z ->
  obj_get (build_row flags s q r offset) (KIdx 0) = Some (JStr (slice s q (m_end r)))
  /\ forall j, obj_get (build_row flags s q r offset) (KIdx (S j))
               = option_map (fun cp => match cp with
                                       | Some g => JStr g
                                       | None => unmatched (Z.eqb (Z.land flags PREG_UNMATCHED_AS_NULL)
                                                                  PREG_UNMATCHED_AS_NULL)
                                       end) (nth_error (m_caps r) j).
Proof.
  intros Hf. unfold build_row. rewrite Hf. simpl negb. cbv iota. unfold withValues.
  set (u := Z.eqb (Z.land flags PREG_UNMATCHED_AS_NULL) PREG_UNMATCHED_AS_NULL).
  split.
  - destruct (m_groups r) as [gs|]; [rewrite values_groups_get_idx|];
      rewrite caps_values_get_lt by lia; reflexivity.
  - intros j. destruct (m_groups r) as [gs|]; [rewrite values_groups_get_idx|];
      change (S j) with (1 + j); rewrite caps_values_get;
      destruct (nth_error (m_caps r) j); reflexivity.
Qed.

Lemma build_row_offsets_key0 (flags : Z) (s : string) (q : nat) (r : MatchRes) (offset : Z) :
  Z.land flags PREG_OFFSET_CAPTURE <> 0%Z ->
  obj_get (build_row flags s q r offset) (KIdx 0)
  = Some (JArr [JStr (slice s q (m_end r)); JNum (Z.of_nat q + offset)%Z]).
Proof.
  intros Hf. unfold build_row. destruct (Z.eqb_spec (Z.land flags PREG_OFFSET_CAPTURE) 0); [contradiction|].
  simpl. unfold withOffsets. destruct (m_groups r) as [gs|]; [rewrite groups_offsets_get_idx|];
    rewrite caps_offsets_get_lt by lia; reflexivity.
Qed.

(** [preg_match] without [PREG_OFFSET_CAPTURE], on a match: [matches[0]] is
    the matched text and [matches[i]] the [i]-th capture, an unmatched group
    giving [""], or [null] under [PREG_UNMATCHED_AS_NULL]; no index past the
    last capture is left in the container. *)
Theorem preg_match_row_values `{RE : NativeRegExp}
    (pattern subject : string) (c : container) (flags offset : Z) (st : St) (m : Matcher) (q : nat) (r : MatchRes) :
  fst (compile pattern true st) = Some m ->
  exec_at m (subject_from subject offset) 0 = Some (q, r) ->
  Z.land flags PREG_OFFSET_CAPTURE = 0%Z ->
  exists c',
    snd (fst (preg_match pattern subject (Some c) flags offset st)) = Some c'
    /\ obj_get (c_props c') (KIdx 0) = Some (JStr (slice (subject_from subject offset) q (m_end r)))
    /\ forall j, obj_get (c_props c') (KIdx (S j))
                 = option_map (fun cp => match cp with
                                         | Some g => JStr g
                                         | None => if Z.eqb (Z.land flags PREG_UNMATCHED_AS_NULL)
                                                             PREG_UNMATCHED_AS_NULL
                                                   then JNull else JStr ""
                                         end) (nth_error (m_caps r) j).
Proof.
  intros Hc Hx Hf. rewrite (preg_match_written pattern subject c flags offset st m q r Hc Hx).
  destruct (build_row_values_get flags (subject_from subject offset) q r offset Hf) as [H0 Hj].
  eexists. split; [reflexivity|]. split.
  - rewrite write_container_get_full by apply build_row_nodup. rewrite H0. reflexivity.
  - intros j. rewrite write_container_get_full by apply build_row_nodup. rewrite Hj.
    destruct (nth_error (m_caps r) j); simpl; [reflexivity|].
    rewrite andb_false_r. reflexivity.
Qed.

Lemma preg_match_row_values_witness :
  fst (@compile LiteralEngine "/(b)/" true init_state) = Some (group_matcher "b")
  /\ exec_at (group_matcher "b") (subject_from "abc" 0) 0
     = Some (1, {| m_end := 2; m_caps := [Some "b"]; m_groups := None |})
  /\ Z.land 0 PREG_OFFSET_CAPTURE = 0%Z
  /\ exists c',
       snd (fst (@preg_match LiteralEngine "/(b)/" "abc" (Some {| c_is_array := false; c_props := [] |})
                   0 0 init_state)) = Some c'
       /\ obj_get (c_props c') (KIdx 1) = Some (JStr "b").
Proof.
  split; [reflexivity|]. split; [reflexivity|]. split; [reflexivity|].
  destruct (@preg_match_row_values LiteralEngine "/(b)/" "abc" {| c_is_array := false; c_props := [] |}
              0 0 init_state (group_matcher "b") 1 {| m_end := 2; m_caps := [Some "b"]; m_groups := None |}
              eq_refl eq_refl eq_refl) as (c' & H1 & _ & H3).
  exists c'. split; [exact H1|]. exact (H3 0).
Defined.

(** ** Offsets reported with PREG_OFFSET_CAPTURE *)

Lemma subject_from_nonneg (subject : string) (offset : Z) :
  (0 <= offset)%Z ->
  subject_from subject offset
  = let from := Nat.min (Z.to_nat offset) (String.length subject) in
    substring from (String.length subject - from) subject.
Proof.
  intros H. unfold subject_from, js_slice_from, slice.
  destruct (Z.eqb_spec offset 0) as [->|Hne].
  - simpl. rewrite Nat.sub_0_r, substring_full. reflexivity.
  - destruct (Z.ltb_spec offset 0) as [|_]; [lia|].
    replace (Z.to_nat (Z.min offset (Z.of_nat (String.length subject))))
      with (Nat.min (Z.to_nat offset) (String.length subject)) by lia.
    reflexivity.
Qed.

(** [preg_match] with [PREG_OFFSET_CAPTURE] and [offset >= 0]: [matches[0]]
    is [[m0, idx]] with [idx = m.index + offset], and [m0] is the text of the
    subject found at [idx]. *)
Theorem preg_match_offset_index `{RE : NativeRegExp}
    (pattern subject : string) (c : container) (flags offset : Z) (st : St) (m : Matcher) (q : nat) (r : MatchRes) :
  fst (compile pattern true st) = Some m ->
  exec_at m (subject_from subject offset) 0 = Some (q, r) ->
  Z.land flags PREG_OFFSET_CAPTURE <> 0%Z ->
  (0 <= offset)%Z ->
  exists c' m0 idx,
    snd (fst (preg_match pattern subject (Some c) flags offset st)) = Some c'
    /\ obj_get (c_props c') (KIdx 0) = Some (JArr [JStr m0; JNum idx])
    /\ idx = (Z.of_nat q + offset)%Z
    /\ substring (Z.to_nat idx) (String.length m0) subject = m0.
Proof.
  intros Hc Hx Hf Ho. rewrite (preg_match_written pattern subject c flags offset st m q r Hc Hx).
  eexists. exists (slice (subject_from subject offset) q (m_end r)), (Z.of_nat q + offset)%Z.
  split; [reflexivity|]. split.
  { rewrite write_container_get_full by apply build_row_nodup.
    rewrite build_row_offsets_key0 by exact Hf. reflexivity. }
  split; [reflexivity|].
  rewrite subject_from_nonneg by exact Ho. cbv zeta. unfold slice at 1 2.
  rewrite substring_suffix.
  destruct (Nat.le_gt_cases (Z.to_nat offset) (String.length subject)) as [Hle|Hgt].
  - rewrite (Nat.min_l _ _ Hle). replace (Z.to_nat (Z.of_nat q + offset)) with (Z.to_nat offset + q) by lia.
    apply substring_self_length.
  - rewrite (Nat.min_r _ _ (Nat.lt_le_incl _ _ Hgt)).
    rewrite (substring_past subject (String.length subject + q)) by lia. apply substring_zero.
Qed.

Lemma preg_match_offset_index_witness :
  fst (@compile LiteralEngine "/b/" true init_state) = Some (lit_matcher "b")
  /\ exec_at (lit_matcher "b") (subject_from "abcb" 2) 0
     = Some (1, {| m_end := 2; m_caps := []; m_groups := None |})
  /\ Z.land PREG_OFFSET_CAPTURE PREG_OFFSET_CAPTURE <> 0%Z
  /\ (0 <= 2)%Z
  /\ exists c' m0 idx,
       snd (fst (@preg_match LiteralEngine "/b/" "abcb" (Some {| c_is_array := false; c_props := [] |})
                   PREG_OFFSET_CAPTURE 2 init_state)) = Some c'
       /\ obj_get (c_props c') (KIdx 0) = Some (JArr [JStr m0; JNum idx])
       /\ idx = (Z.of_nat 1 + 2)%Z
       /\ substring (Z.to_nat idx) (String.length m0) "abcb" = m0.
Proof.
  split; [reflexivity|]. split; [reflexivity|]. split; [discriminate|]. split; [lia|].
  apply (@preg_match_offset_index LiteralEngine "/b/" "abcb" {| c_is_array := false; c_props := [] |}
           PREG_OFFSET_CAPTURE 2 init_state (lit_matcher "b") 1 {| m_end := 2; m_caps := []; m_groups := None |});
    [reflexivity | reflexivity | discriminate | lia].
Defined.

(** With a negative [offset] ([-length subject <= offset < 0]) the code
    searches [subject.slice(offset)] but still reports [m.index + offset]:
    the text [m0] sits at [idx + length subject] in the subject, not at [idx]. *)
Theorem preg_match_negative_offset_index `{RE : NativeRegExp}
    (pattern subject : string) (c : container) (flags offset : Z) (st : St) (m : Matcher) (q : nat) (r : MatchRes) :
  fst (compile pattern true st) = Some m ->
  exec_at m (subject_from subject offset) 0 = Some (q, r) ->
  Z.land flags PREG_OFFSET_CAPTURE <> 0%Z ->
  (- Z.of_nat (String.length subject) <= offset < 0)%Z ->
  exists c' m0 idx,
    snd (fst (preg_match pattern subject (Some c) flags offset st)) = Some c'
    /\ obj_get (c_props c') (KIdx 0) = Some (JArr [JStr m0; JNum idx])
    /\ idx = (Z.of_nat q + offset)%Z
    /\ substring (Z.to_nat (idx + Z.of_nat (String.length subject))) (String.length m0) subject = m0.
Proof.
  intros Hc Hx Hf Ho. rewrite (preg_match_written pattern subject c flags offset st m q r Hc Hx).
  eexists. exists (slice (subject_from subject offset) q (m_end r)), (Z.of_nat q + offset)%Z.
  split; [reflexivity|]. split.
  { rewrite write_container_get_full by apply build_row_nodup.
    rewrite build_row_offsets_key0 by exact Hf. reflexivity. }
  split; [reflexivity|].
  unfold subject_from, js_slice_from.
  destruct (Z.eqb_spec offset 0) as [|_]; [lia|].
  destruct (Z.ltb_spec offset 0) as [_|]; [|lia].
  set (from := Z.to_nat (Z.max (Z.of_nat (String.length subject) + offset) 0)).
  unfold slice. rewrite !substring_suffix.
  replace (Z.to_nat (Z.of_nat q + offset + Z.of_nat (String.length subject))) with (from + q)
    by (unfold from; lia).
  apply substring_self_length.
Qed.

Lemma preg_match_negative_offset_index_witness :
  fst (@compile LiteralEngine "/b/" true init_state) = Some (lit_matcher "b")
  /\ exec_at (lit_matcher "b") (subject_from "abcb" (-1)) 0
     = Some (0, {| m_end := 1; m_caps := []; m_groups := None |})
  /\ Z.land PREG_OFFSET_CAPTURE PREG_OFFSET_CAPTURE <> 0%Z
  /\ (- Z.of_nat (String.length "abcb") <= -1 < 0)%Z
  /\ exists c' m0 idx,
       snd (fst (@preg_match LiteralEngine "/b/" "abcb" (Some {| c_is_array := false; c_props := [] |})
                   PREG_OFFSET_CAPTURE (-1) init_state)) = Some c'
       /\ obj_get (c_props c') (KIdx 0) = Some (JArr [JStr m0; JNum idx])
       /\ idx = (Z.of_nat 0 + -1)%Z
       /\ substring (Z.to_nat (idx + Z.of_nat (String.length "abcb"))) (String.length m0) "abcb" = m0.
Proof.
  split; [reflexivity|]. split; [reflexivity|]. split; [discriminate|]. split; [simpl; lia|].
  apply (@preg_match_negative_offset_index LiteralEngine "/b/" "abcb" {| c_is_array := false; c_props := [] |}
           PREG_OFFSET_CAPTURE (-1) init_state (lit_matcher "b") 0 {| m_end := 1; m_caps := []; m_groups := None |});
    [reflexivity | reflexivity | discriminate | simpl; lia].
Defined.

(** ** preg_match_all: the whole-match column and the number of matches *)

(** [preg_match_all] in pattern order without [PREG_OFFSET_CAPTURE]:
    [matches[0]] lists the matched texts, in the order the global [exec] loop
    finds them. *)
Theorem preg_match_all_column0 `{RE : NativeRegExp}
    (pattern subject : string) (c : container) (flags offset : Z) (st : St) (m : Matcher) :
  fst (compile pattern false st) = Some m ->
  Z.land flags PREG_SET_ORDER <> PREG_SET_ORDER ->
  Z.land flags PREG_OFFSET_CAPTURE = 0%Z ->
  exists c',
    snd (fst (preg_match_all pattern subject (Some c) flags offset st)) = Some c'
    /\ obj_get (c_props c') (KIdx 0)
       = Some (JArr (map (fun qr => JStr (slice (subject_from subject offset) (fst qr) (m_end (snd qr))))
                         (exec_all m (subject_from subject offset)))).
Proof.
  intros Hc Hs Hf. unfold preg_match_all. destruct (compile pattern false st) as [re st1].
  simpl in Hc. subst re.
  destruct (Z.eqb_spec (Z.land flags PREG_SET_ORDER) PREG_SET_ORDER) as [|_]; [contradiction|].
  eexists. split; [reflexivity|].
  apply write_container_get; [apply pattern_order_nodup|].
  rewrite pattern_order_key0.
  - f_equal. f_equal. rewrite map_map. apply map_ext. intros [q r]. unfold row0. simpl.
    rewrite (proj1 (build_row_values_get flags _ q r offset Hf)). reflexivity.
  - intros row Hrow. apply in_map_iff in Hrow as [[q r] [<- _]].
    split; [apply build_row_nodup | apply build_row_key0].
Qed.

Lemma preg_match_all_column0_witness :
  fst (@compile LiteralEngine "/an/" false init_state) = Some (lit_matcher "an")
  /\ Z.land 0 PREG_SET_ORDER <> PREG_SET_ORDER
  /\ Z.land 0 PREG_OFFSET_CAPTURE = 0%Z
  /\ exists c',
       snd (fst (@preg_match_all LiteralEngine "/an/" "banana" (Some {| c_is_array := false; c_props := [] |})
                   0 0 init_state)) = Some c'
       /\ obj_get (c_props c') (KIdx 0)
          = Some (JArr (map (fun qr => JStr (slice (subject_from "banana" 0) (fst qr) (m_end (snd qr))))
                            (exec_all (lit_matcher "an") (subject_from "banana" 0)))).
Proof.
  split; [reflexivity|]. split; [discriminate|]. split; [reflexivity|].
  apply (@preg_match_all_column0 LiteralEngine "/an/" "banana" {| c_is_array := false; c_props := [] |}
           0 0 init_state (lit_matcher "an")); [reflexivity | discriminate | reflexivity].
Defined.

Lemma exec_all_fuel_length_le (m : Matcher) (s : string) :
  matcher_wf m -> forall f li, length (exec_all_fuel m f s li) <= S (String.length s) - li.
Proof.
  intros Hwf f. induction f as [|f IH]; intros li; cbn [exec_all_fuel length]; [lia|].
  destruct (exec_at m s li) as [[q r]|] eqn:E; cbn [length]; [|lia].
  apply exec_at_spec in E as [E1 E2]. pose proof (Hwf _ _ _ E2) as H.
  specialize (IH (if Nat.eqb (m_end r) q then S (m_end r) else m_end r)).
  destruct (Nat.eqb_spec (m_end r) q); lia.
Qed.

Lemma exec_all_fuel_all_empty (m : Matcher) (s : string) :
  (forall q, q <= String.length s -> exists r, m s q = Some r /\ m_end r = q) ->
  forall f li, li <= String.length s -> String.length s - li + 1 <= f ->
  length (exec_all_fuel m f s li) = S (String.length s - li).
Proof.
  intros Hall f. induction f as [|f IH]; intros li Hl Hf; [lia|].
  destruct (Hall li Hl) as [r [Hr He]].
  assert (Hx : exec_at m s li = Some (li, r)).
  { unfold exec_at. destruct (Nat.ltb_spec (String.length s) li); [lia|].
    destruct (String.length s - li); simpl; rewrite Hr; reflexivity. }
  cbn [exec_all_fuel]. rewrite Hx. rewrite He, Nat.eqb_refl. cbn [length]. f_equal.
  destruct (Nat.eq_dec li (String.length s)) as [Heq|Hne].
  - replace (String.length s - li) with 0 by lia. destruct f; cbn [exec_all_fuel length]; [reflexivity|].
    unfold exec_at. destruct (Nat.ltb_spec (String.length s) (S li)); [reflexivity|lia].
  - rewrite IH by lia. lia.
Qed.

(** [preg_match_all(pattern, subject)] counts at most [length subject + 1]
    matches (each round of the loop moves past the previous match, or one
    character further after an empty one), and exactly that many when the
    regex matches the empty string at every position. *)
Theorem preg_match_all_count_bound `{RE : NativeRegExp}
    (pattern subject : string) (matches : option container) (flags : Z) (st : St) (m : Matcher) :
  fst (compile pattern false st) = Some m ->
  matcher_wf m ->
  exists n,
    fst (fst (preg_match_all pattern subject matches flags 0 st)) = PInt (Z.of_nat n)
    /\ n <= String.length subject + 1
    /\ ((forall q, q <= String.length subject -> exists r, m subject q = Some r /\ m_end r = q) ->
        n = String.length subject + 1).
Proof.
  intros Hc Hwf. unfold preg_match_all. destruct (compile pattern false st) as [re st1].
  simpl in Hc. subst re. unfold subject_from. simpl Z.eqb. cbv iota.
  eexists. split; [reflexivity|]. rewrite length_map. unfold exec_all. split.
  - pose proof (exec_all_fuel_length_le m subject Hwf (S (S (String.length subject))) 0). lia.
  - intros Hall. rewrite (exec_all_fuel_all_empty m subject Hall) by lia. lia.
Qed.

Lemma preg_match_all_count_bound_witness :
  fst (@compile LiteralEngine "//" false init_state) = Some (lit_matcher "")
  /\ matcher_wf (lit_matcher "")
  /\ exists n,
       fst (fst (@preg_match_all LiteralEngine "//" "abc" None 0 0 init_state)) = PInt (Z.of_nat n)
       /\ n <= String.length "abc" + 1
       /\ ((forall q, q <= String.length "abc" -> exists r, lit_matcher "" "abc" q = Some r /\ m_end r = q) ->
           n = String.length "abc" + 1).
Proof.
  split; [reflexivity|]. split; [apply lit_matcher_wf|].
  apply (@preg_match_all_count_bound LiteralEngine "//" "abc" None 0 init_state (lit_matcher ""));
    [reflexivity | apply lit_matcher_wf].
Defined.

(** ** Delimiter errors *)

(** [compile] on a literal shorter than two characters records ["Empty regex"],
    and on a literal whose first character does not occur again records
    ["Invalid delimiter"], both with error code 1 and no regex. *)
Theorem compile_delimiter_errors `{RE : NativeRegExp} (single : bool) (st : St) :
  (forall pat, String.length pat < 2 ->
     compile pat single st
     = (None, {| last_error := PREG_INTERNAL_ERROR; last_error_msg := "Empty regex" |}))
  /\ (forall d rest, rest <> "" -> ~ In d (list_ascii_of_string rest) ->
        compile (String d rest) single st
        = (None, {| last_error := PREG_INTERNAL_ERROR; last_error_msg := "Invalid delimiter" |})).
Proof.
  split.
  - intros pat H. unfold compile, parsePattern.
    destruct (Nat.ltb_spec (String.length pat) 2); [reflexivity|lia].
  - intros d rest Hr Hd. unfold compile, parsePattern.
    destruct (Nat.ltb_spec (String.length (String d rest)) 2) as [H|_].
    + destruct rest; [contradiction|]. simpl in H. lia.
    + cbn [last_index_of]. rewrite (last_index_none d rest Hd), Ascii.eqb_refl. reflexivity.
Qed.
